(** * Monitoring-lifecycle supervisor of the Ceph cluster controller

    Shallow embedding of [pkg/operator/ceph/cluster/monitoring.go]
    ([configureCephMonitoring], [isMonitoringDisabled], [startMonitoringCheck])
    and the properties of its registry of health-check goroutines.

    Go features that matter here and how they are modelled:
    - [cluster.monitoringChannels] is a [map[string]*clusterHealth]: a finite
      map from daemon names to addresses, next to a heap of [clusterHealth]
      records, so that a record slot has an identity of its own;
    - a [chan struct{}] is an identifier; the world remembers which channels
      were made and which of them are closed.  Closing a closed channel and
      closing a nil channel panic, as in Go;
    - [go f(x)] evaluates [x] in the caller and spawns the call: it is recorded
      as an event carrying the evaluated stop channel;
    - a panic stops the pass (and every later pass): the process is gone;
    - the map [cluster.monitoringChannels] has been made by the constructor of
      [cluster] (writing to a nil map would panic) and never holds a nil
      pointer for a key: the source only stores [&clusterHealth{...}]. *)

From stdpp Require Import base option strings gmap list.

Open Scope string_scope.
Open Scope list_scope.
Open Scope nat_scope.

(** ** Data model *)

(** The part of [cephv1.ClusterSpec] that this file reads. *)
Record HealthCheckSpec := { Disabled : bool }.

Record DaemonHealthSpec := {
  Status : HealthCheckSpec;
  Monitor : HealthCheckSpec;
  ObjectStorageDaemon : HealthCheckSpec }.

Record CephClusterHealthCheckSpec := { DaemonHealth : DaemonHealthSpec }.

Record ClusterSpec := {
  HealthCheck : CephClusterHealthCheckSpec;
  RemoveOSDsIfOutAndSafeToRemove : bool }.

(** A channel value.  An identifier that was never made stands for the nil
    channel. *)
Definition chan := nat.

(** The address of a [clusterHealth] record.  An address that is not allocated
    stands for the nil pointer. *)
Definition ptr := nat.

(** One record of the registry. *)
Record clusterHealth := {
  stopChan : chan;
  monitoringRunning : bool }.

(** [clusterd.Context]: an opaque handle and its [KubeConfig]. *)
Record Context := { ctxHandle : nat; KubeConfig : nat }.

(** The fields of [cluster] used by the supervisor.  [mons] is an opaque
    handle to the [*mon.Cluster]. *)
Record cluster := {
  Namespace : string;
  Spec : ClusterSpec;
  mons : nat;
  stopCh : chan;
  monitoringChannels : gmap string ptr;
  watchersActivated : bool }.

(** Field updates of [cluster]. *)
Definition withSpec (spec : ClusterSpec) (cl : cluster) : cluster :=
  {| Namespace := Namespace cl; Spec := spec; mons := mons cl;
     stopCh := stopCh cl; monitoringChannels := monitoringChannels cl;
     watchersActivated := watchersActivated cl |}.

Definition withMonitoringChannels (reg : gmap string ptr) (cl : cluster)
  : cluster :=
  {| Namespace := Namespace cl; Spec := Spec cl; mons := mons cl;
     stopCh := stopCh cl; monitoringChannels := reg;
     watchersActivated := watchersActivated cl |}.

Definition withWatchersActivated (b : bool) (cl : cluster) : cluster :=
  {| Namespace := Namespace cl; Spec := Spec cl; mons := mons cl;
     stopCh := stopCh cl; monitoringChannels := monitoringChannels cl;
     watchersActivated := b |}.

(** External collaborators: each constructor call is kept as the record of its
    arguments. *)
Record HealthChecker := NewHealthChecker {
  hcMons : nat; hcSpec : ClusterSpec }.

Record OSDHealthMonitor := NewOSDHealthMonitor {
  ohmContext : Context; ohmNamespace : string;
  ohmRemoveOSDs : bool; ohmHealthCheck : CephClusterHealthCheckSpec }.

Record cephStatusChecker := newCephStatusChecker {
  cscContext : Context; cscNamespace : string; cscCephUser : string;
  cscNamespacedName : string; cscHealthCheck : CephClusterHealthCheckSpec }.

Record ClientController := NewClientController {
  ccContext : Context; ccNamespace : string }.

Record Provisioner := NewProvisioner {
  prContext : Context; prNamespace : string; prCephUser : string }.

Record BucketController := NewBucketController {
  bcKubeConfig : nat; bcProvisioner : Provisioner }.

(** The fields of the receiver [c] that the supervisor uses. *)
Record ClusterController := {
  context : Context;
  namespacedName : string;
  osdChecker : option OSDHealthMonitor }.

(** [c.osdChecker = m] *)
Definition withOsdChecker (m : OSDHealthMonitor) (c : ClusterController)
  : ClusterController :=
  {| context := context c; namespacedName := namespacedName c;
     osdChecker := Some m |}.

(** The call spawned by a [go] statement, with its evaluated argument. *)
Inductive goroutine :=
| HealthChecker_Check (hc : HealthChecker) (stop : chan)
| OSDHealthMonitor_Start (m : OSDHealthMonitor) (stop : chan)
| cephStatusChecker_checkCephStatus (sc : cephStatusChecker) (stop : chan)
| BucketController_Run (bc : BucketController) (stop : chan).

(** What a pass does to the outside, in program order. *)
Inductive event :=
| EvDebugf (format : string) (args : list string)
| EvInfof (format : string) (args : list string)
| EvGo (g : goroutine)
| EvClose (c : chan)
| EvStartWatch (cc : ClientController) (stop : chan).

(** Everything a pass can read or write. *)
Record world := {
  w_cluster : cluster;
  w_controller : ClusterController;
  w_health : gmap ptr clusterHealth;
  w_chans : gmap chan bool }.

(** ** Panics, state and events *)

(** A call returns a value or panics with Go's message. *)
Inductive result (A : Type) :=
| Ret (a : A)
| Panic (msg : string).
Arguments Ret {A} a.
Arguments Panic {A} msg.

(** A computation reads and writes the world and emits events; after a panic
    the world and the events up to the panic remain. *)
Definition M (A : Type) : Type := world → result A * world * list event.

Definition run {A} (m : M A) (w : world) : result A * world * list event :=
  m w.

#[global] Instance M_ret : MRet M := λ A a w, (Ret a, w, []).

#[global] Instance M_bind : MBind M := λ A B f m w,
  match m w with
  | (Ret a, w', evs) =>
      match f a w' with
      | (r, w'', evs') => (r, w'', evs ++ evs')
      end
  | (Panic msg, w', evs) => (Panic msg, w', evs)
  end.

Definition emit (e : event) : M unit := λ w, (Ret tt, w, [e]).
Definition getCluster : M cluster := λ w, (Ret (w_cluster w), w, []).
Definition getController : M ClusterController :=
  λ w, (Ret (w_controller w), w, []).

(** Field updates of the world. *)
Definition withCluster (cl : cluster) (w : world) : world :=
  {| w_cluster := cl; w_controller := w_controller w;
     w_health := w_health w; w_chans := w_chans w |}.

Definition withController (c : ClusterController) (w : world) : world :=
  {| w_cluster := w_cluster w; w_controller := c;
     w_health := w_health w; w_chans := w_chans w |}.

Definition withHealth (hp : gmap ptr clusterHealth) (w : world) : world :=
  {| w_cluster := w_cluster w; w_controller := w_controller w;
     w_health := hp; w_chans := w_chans w |}.

Definition withChans (cs : gmap chan bool) (w : world) : world :=
  {| w_cluster := w_cluster w; w_controller := w_controller w;
     w_health := w_health w; w_chans := cs |}.

Definition putCluster (cl : cluster) : M unit :=
  λ w, (Ret tt, withCluster cl w, []).

Definition putController (c : ClusterController) : M unit :=
  λ w, (Ret tt, withController c w, []).

(** Go's message for a nil dereference. *)
Definition nilDeref : string :=
  "invalid memory address or nil pointer dereference".

(** [*p] for a [*clusterHealth]; a key missing from the map reads as the nil
    pointer. *)
Definition deref (p : option ptr) : M clusterHealth := λ w,
  match p ≫= (λ a, w_health w !! a) with
  | Some h => (Ret h, w, [])
  | None => (Panic nilDeref, w, [])
  end.

(** [*p = h] *)
Definition store (p : option ptr) (h : clusterHealth) : M unit := λ w,
  match p ≫= (λ a, (λ _, a) <$> w_health w !! a) with
  | Some a => (Ret tt, withHealth (<[a := h]> (w_health w)) w, [])
  | None => (Panic nilDeref, w, [])
  end.

(** [&clusterHealth{...}] *)
Definition new (h : clusterHealth) : M ptr := λ w,
  let p := fresh (dom (w_health w)) in
  (Ret p, withHealth (<[p := h]> (w_health w)) w, []).

(** [make(chan struct{})] *)
Definition makeChan : M chan := λ w,
  let c := fresh (dom (w_chans w)) in
  (Ret c, withChans (<[c := false]> (w_chans w)) w, []).

(** [close(c)] *)
Definition closeChan (c : chan) : M unit := λ w,
  match w_chans w !! c with
  | None => (Panic "close of nil channel", w, [])
  | Some true => (Panic "close of closed channel", w, [])
  | Some false => (Ret tt, withChans (<[c := true]> (w_chans w)) w, [EvClose c])
  end.

(** [logger.Debugf], [logger.Infof] and the [go] statement. *)
Definition Debugf (format : string) (args : list string) : M unit :=
  emit (EvDebugf format args).
Definition Infof (format : string) (args : list string) : M unit :=
  emit (EvInfof format args).
Definition go (g : goroutine) : M unit := emit (EvGo g).

(** [for _, x := range l { body }] *)
Fixpoint forRange {A} (l : list A) (body : A → M unit) : M unit :=
  match l with
  | [] => mret tt
  | x :: l' => body x ;; forRange l' body
  end.

(** ** The source *)

Definition isMonitoringDisabled (daemon : string) (clusterSpec : ClusterSpec)
  : bool :=
  if decide (daemon = "mon") then
    Disabled (Monitor (DaemonHealth (HealthCheck clusterSpec)))
  else if decide (daemon = "osd") then
    Disabled (ObjectStorageDaemon (DaemonHealth (HealthCheck clusterSpec)))
  else if decide (daemon = "status") then
    Disabled (Status (DaemonHealth (HealthCheck clusterSpec)))
  else false.

(** [cluster.monitoringChannels[daemon].stopChan] *)
Definition monitoringStopChan (daemon : string) : M chan :=
  cl ← getCluster;
  h ← deref (monitoringChannels cl !! daemon);
  mret (stopChan h).

(** [cluster.monitoringChannels[daemon].monitoringRunning = b] *)
Definition setMonitoringRunning (daemon : string) (b : bool) : M unit :=
  cl ← getCluster;
  let p := monitoringChannels cl !! daemon in
  h ← deref p;
  store p {| stopChan := stopChan h; monitoringRunning := b |}.

(** The format strings of the log lines. *)
Definition enablingFormat : string :=
  "enabling ceph %s monitoring goroutine for cluster %q".

Definition runningFormat : string :=
  "ceph %s health go routine is already running for cluster %q".

Definition watchedFormat : string :=
  "cluster is already being watched by bucket and client provisioner for cluster %q".

Definition startMonitoringCheck (daemon cephUser : string) : M unit :=
  cl ← getCluster;
  c ← getController;
  if decide (daemon = "mon") then
    let healthChecker := NewHealthChecker (mons cl) (Spec cl) in
    Infof enablingFormat [daemon; Namespace cl] ;;
    stop ← monitoringStopChan daemon;
    go (HealthChecker_Check healthChecker stop)
  else if decide (daemon = "osd") then
    let checker :=
      NewOSDHealthMonitor (context c) (Namespace cl)
        (RemoveOSDsIfOutAndSafeToRemove (Spec cl)) (HealthCheck (Spec cl)) in
    putController (withOsdChecker checker c) ;;
    Infof enablingFormat [daemon; Namespace cl] ;;
    stop ← monitoringStopChan daemon;
    go (OSDHealthMonitor_Start checker stop)
  else if decide (daemon = "status") then
    let cephChecker :=
      newCephStatusChecker (context c) (Namespace cl) cephUser
        (namespacedName c) (HealthCheck (Spec cl)) in
    Infof enablingFormat [daemon; Namespace cl] ;;
    stop ← monitoringStopChan daemon;
    go (cephStatusChecker_checkCephStatus cephChecker stop)
  else mret tt.

Definition daemons : list string := ["mon"; "osd"; "status"].

(** The body of the loop over [daemons]. *)
Definition configureDaemon (cephUser daemon : string) : M unit :=
  cl ← getCluster;
  let isDisabled := isMonitoringDisabled daemon (Spec cl) in
  match monitoringChannels cl !! daemon with
  | Some health =>
      h ← deref (Some health);
      if monitoringRunning h then
        if isDisabled then
          stop ← monitoringStopChan daemon;
          closeChan stop ;;
          setMonitoringRunning daemon false
        else
          Debugf runningFormat [daemon; Namespace cl]
      else
        if negb isDisabled then
          startMonitoringCheck daemon cephUser ;;
          setMonitoringRunning daemon true
        else mret tt
  | None =>
      if negb isDisabled then
        stop ← makeChan;
        health ← new {| stopChan := stop; monitoringRunning := true |};
        cl' ← getCluster;
        putCluster
          (withMonitoringChannels
             (<[daemon := health]> (monitoringChannels cl')) cl') ;;
        startMonitoringCheck daemon cephUser
      else mret tt
  end.

Definition configureCephMonitoring (cephUser : string) : M unit :=
  forRange daemons (configureDaemon cephUser) ;;
  cl ← getCluster;
  if watchersActivated cl then
    Debugf watchedFormat [Namespace cl]
  else
    c ← getController;
    let clientController := NewClientController (context c) (Namespace cl) in
    emit (EvStartWatch clientController (stopCh cl)) ;;
    let bucketProvisioner :=
      NewProvisioner (context c) (Namespace cl) cephUser in
    let bucketController :=
      NewBucketController (KubeConfig (context c)) bucketProvisioner in
    go (BucketController_Run bucketController (stopCh cl)) ;;
    cl' ← getCluster;
    putCluster (withWatchersActivated true cl').

(** ** Passes *)

(** The caller refreshes [cluster.Spec] from the custom resource before a
    pass. *)
Definition setSpec (spec : ClusterSpec) : M unit :=
  cl ← getCluster;
  putCluster (withSpec spec cl).

(** One reconciliation pass: a desired-state snapshot and the ceph user. *)
Definition reconcile (pass : ClusterSpec * string) : M unit :=
  setSpec pass.1 ;; configureCephMonitoring pass.2.

(** Passes run one after the other; a panic ends the run. *)
Definition reconcileAll (passes : list (ClusterSpec * string)) : M unit :=
  forRange passes reconcile.

(** A snapshot from the three [Disabled] flags. *)
Definition specOf (monDisabled osdDisabled statusDisabled : bool)
  : ClusterSpec :=
  {| HealthCheck :=
       {| DaemonHealth :=
            {| Status := {| Disabled := statusDisabled |};
               Monitor := {| Disabled := monDisabled |};
               ObjectStorageDaemon := {| Disabled := osdDisabled |} |} |};
     RemoveOSDsIfOutAndSafeToRemove := false |}.

(** Modelled from the spec: the constructor of [cluster] is not part of
    [monitoring.go].  The spec's data model says the registry starts without
    any record ("a Monitoring Record is created the first time a daemon kind is
    observed enabled") and the activation gate "starts false"; the cluster's
    own stop channel has been made and is open. *)
Definition newCluster (namespace : string) (spec : ClusterSpec) : cluster :=
  {| Namespace := namespace; Spec := spec; mons := 0; stopCh := 0;
     monitoringChannels := ∅; watchersActivated := false |}.

(** Modelled from the spec: the world around a new cluster, before any pass.
    No record is allocated and the only channel is the cluster's own [stopCh],
    which is open. *)
Definition initWorld (c : ClusterController) (namespace : string)
    (spec : ClusterSpec) : world :=
  {| w_cluster := newCluster namespace spec; w_controller := c;
     w_health := ∅; w_chans := {[ 0 := false ]} |}.

(** A concrete controller and cluster, for examples. *)
Definition aController : ClusterController :=
  {| context := {| ctxHandle := 0; KubeConfig := 0 |};
     namespacedName := "rook-ceph/rook-ceph"; osdChecker := None |}.

Definition w0 : world :=
  initWorld aController "rook-ceph" (specOf false false false).

(** ** Reading a trace *)

(** The daemon a health-check goroutine belongs to; the bucket controller
    belongs to none. *)
Definition goroutineDaemon (g : goroutine) : option string :=
  match g with
  | HealthChecker_Check _ _ => Some "mon"
  | OSDHealthMonitor_Start _ _ => Some "osd"
  | cephStatusChecker_checkCephStatus _ _ => Some "status"
  | BucketController_Run _ _ => None
  end.

(** The cancellation signal a goroutine was handed. *)
Definition goroutineStop (g : goroutine) : chan :=
  match g with
  | HealthChecker_Check _ stop => stop
  | OSDHealthMonitor_Start _ stop => stop
  | cephStatusChecker_checkCephStatus _ stop => stop
  | BucketController_Run _ stop => stop
  end.

(** [launchOf daemon e] is the stop channel when [e] starts a health check of
    [daemon]. *)
Definition launchOf (daemon : string) (e : event) : option chan :=
  match e with
  | EvGo g =>
      if decide (goroutineDaemon g = Some daemon) then Some (goroutineStop g)
      else None
  | _ => None
  end.

(** Recognisers of [close(c)], of the client watcher start and of the bucket
    controller goroutine. *)
Definition isClose (c : chan) (e : event) : bool :=
  match e with
  | EvClose c' => bool_decide (c' = c)
  | _ => false
  end.

Definition isStartWatch (e : event) : bool :=
  match e with EvStartWatch _ _ => true | _ => false end.

Definition isBucketRun (e : event) : bool :=
  match e with EvGo (BucketController_Run _ _) => true | _ => false end.

(** Stop channels of the launches of [daemon], oldest first. *)
Definition launches (daemon : string) (tr : list event) : list chan :=
  omap (launchOf daemon) tr.

(** Number of [close(c)] in a trace. *)
Definition closes (c : chan) (tr : list event) : nat :=
  length (filter (λ e, isClose c e = true) tr).

(** A pass is quiet when it only logs at debug level. *)
Definition isDebug (e : event) : bool :=
  match e with EvDebugf _ _ => true | _ => false end.

(** How often the two watchers were started. *)
Definition watchStarts (tr : list event) : nat :=
  length (filter (λ e, isStartWatch e = true) tr).

Definition bucketRuns (tr : list event) : nat :=
  length (filter (λ e, isBucketRun e = true) tr).

(** Number of health checks of [daemon] that are active at the end of a trace:
    launches whose stop channel was not closed afterwards. *)
Fixpoint active (daemon : string) (tr : list event) : nat :=
  match tr with
  | [] => 0
  | e :: tr' =>
      match launchOf daemon e with
      | Some c =>
          if decide (closes c tr' = 0) then S (active daemon tr')
          else active daemon tr'
      | None => active daemon tr'
      end
  end.

(** ** Vocabulary of the properties *)

(** The goroutine that [startMonitoringCheck] spawns for a daemon of the
    enumeration, from the checker it builds. *)
Definition checkerOf (daemon cephUser : string) (cl : cluster)
    (c : ClusterController) (stop : chan) : goroutine :=
  if decide (daemon = "mon") then
    HealthChecker_Check (NewHealthChecker (mons cl) (Spec cl)) stop
  else if decide (daemon = "osd") then
    OSDHealthMonitor_Start
      (NewOSDHealthMonitor (context c) (Namespace cl)
         (RemoveOSDsIfOutAndSafeToRemove (Spec cl)) (HealthCheck (Spec cl)))
      stop
  else
    cephStatusChecker_checkCephStatus
      (newCephStatusChecker (context c) (Namespace cl) cephUser
         (namespacedName c) (HealthCheck (Spec cl))) stop.

(** The events of [startMonitoringCheck] for a daemon of the enumeration. *)
Definition launchTrace (daemon cephUser : string) (w : world) (stop : chan)
  : list event :=
  [EvInfof enablingFormat [daemon; Namespace (w_cluster w)];
   EvGo (checkerOf daemon cephUser (w_cluster w) (w_controller w) stop)].

(** The world after [startMonitoringCheck]: only "osd" writes, to
    [c.osdChecker]. *)
Definition started (daemon : string) (w : world) : world :=
  if decide (daemon = "osd") then
    withController
      (withOsdChecker
         (NewOSDHealthMonitor (context (w_controller w))
            (Namespace (w_cluster w))
            (RemoveOSDsIfOutAndSafeToRemove (Spec (w_cluster w)))
            (HealthCheck (Spec (w_cluster w))))
         (w_controller w)) w
  else w.

(** The snapshot that enables exactly the listed daemons. *)
Definition enabledSpec (enabled : list string) : ClusterSpec :=
  specOf (bool_decide ("mon" ∉ enabled)) (bool_decide ("osd" ∉ enabled))
    (bool_decide ("status" ∉ enabled)).

(** The outcomes of the loop body for a daemon of the enumeration, one
    constructor per path through the source. *)
Inductive transition (cephUser daemon : string) (w : world)
  : result unit * world * list event → Prop :=
| T_absent_disabled :
    monitoringChannels (w_cluster w) !! daemon = None →
    isMonitoringDisabled daemon (Spec (w_cluster w)) = true →
    transition cephUser daemon w (Ret tt, w, [])
| T_absent_enabled stop health w' :
    monitoringChannels (w_cluster w) !! daemon = None →
    isMonitoringDisabled daemon (Spec (w_cluster w)) = false →
    stop = fresh (dom (w_chans w)) →
    health = fresh (dom (w_health w)) →
    w' = withCluster
           (withMonitoringChannels
              (<[daemon := health]> (monitoringChannels (w_cluster w)))
              (w_cluster w))
           (withHealth
              (<[health := {| stopChan := stop; monitoringRunning := true |}]>
                 (w_health w))
              (withChans (<[stop := false]> (w_chans w)) w)) →
    transition cephUser daemon w
      (Ret tt, started daemon w', launchTrace daemon cephUser w' stop)
| T_running_enabled health h :
    monitoringChannels (w_cluster w) !! daemon = Some health →
    w_health w !! health = Some h →
    monitoringRunning h = true →
    isMonitoringDisabled daemon (Spec (w_cluster w)) = false →
    transition cephUser daemon w
      (Ret tt, w,
       [EvDebugf runningFormat [daemon; Namespace (w_cluster w)]])
| T_running_disabled health h :
    monitoringChannels (w_cluster w) !! daemon = Some health →
    w_health w !! health = Some h →
    monitoringRunning h = true →
    isMonitoringDisabled daemon (Spec (w_cluster w)) = true →
    w_chans w !! stopChan h = Some false →
    transition cephUser daemon w
      (Ret tt,
       withHealth
         (<[health := {| stopChan := stopChan h; monitoringRunning := false |}]>
            (w_health w))
         (withChans (<[stopChan h := true]> (w_chans w)) w),
       [EvClose (stopChan h)])
| T_running_disabled_closed health h :
    monitoringChannels (w_cluster w) !! daemon = Some health →
    w_health w !! health = Some h →
    monitoringRunning h = true →
    isMonitoringDisabled daemon (Spec (w_cluster w)) = true →
    w_chans w !! stopChan h = Some true →
    transition cephUser daemon w (Panic "close of closed channel", w, [])
| T_running_disabled_nil health h :
    monitoringChannels (w_cluster w) !! daemon = Some health →
    w_health w !! health = Some h →
    monitoringRunning h = true →
    isMonitoringDisabled daemon (Spec (w_cluster w)) = true →
    w_chans w !! stopChan h = None →
    transition cephUser daemon w (Panic "close of nil channel", w, [])
| T_stopped_disabled health h :
    monitoringChannels (w_cluster w) !! daemon = Some health →
    w_health w !! health = Some h →
    monitoringRunning h = false →
    isMonitoringDisabled daemon (Spec (w_cluster w)) = true →
    transition cephUser daemon w (Ret tt, w, [])
| T_stopped_enabled health h :
    monitoringChannels (w_cluster w) !! daemon = Some health →
    w_health w !! health = Some h →
    monitoringRunning h = false →
    isMonitoringDisabled daemon (Spec (w_cluster w)) = false →
    transition cephUser daemon w
      (Ret tt,
       withHealth
         (<[health := {| stopChan := stopChan h; monitoringRunning := true |}]>
            (w_health w))
         (started daemon w),
       launchTrace daemon cephUser w (stopChan h))
| T_nil_record health :
    monitoringChannels (w_cluster w) !! daemon = Some health →
    w_health w !! health = None →
    transition cephUser daemon w (Panic nilDeref, w, []).

(** [preserves I m]: [m] keeps the invariant [I] of the world and of the trace
    so far, whether it returns or panics. *)
Definition preserves {A} (I : world → list event → Prop) (m : M A) : Prop :=
  ∀ w tr r w' evs, I w tr → run m w = (r, w', evs) → I w' (tr ++ evs).

(** The watchers were started once if the gate is set and never otherwise. *)
Definition gateCounts (w : world) (tr : list event) : Prop :=
  watchStarts tr = (if watchersActivated (w_cluster w) then 1 else 0)
  ∧ bucketRuns tr = (if watchersActivated (w_cluster w) then 1 else 0).

(** The gate is a latch. *)
Definition gateSet (w : world) (tr : list event) : Prop :=
  watchersActivated (w_cluster w) = true.

(** A record is absent, running on an open stop channel, stopped (its channel
    closed), or running again on the channel that was closed. *)
Inductive phase :=
| Absent
| Running (c : chan)
| Stopped (c : chan)
| Relaunched (c : chan).

(** The observer of one daemon: the only launches and closes it accepts are
    those of this life cycle. *)
Definition track1 (daemon : string) (ph : phase) (e : event) : option phase :=
  match launchOf daemon e, ph with
  | Some c, Absent => Some (Running c)
  | Some c, Stopped c0 => if decide (c = c0) then Some (Relaunched c0) else None
  | Some _, _ => None
  | None, Absent => Some Absent
  | None, Running c => if isClose c e then Some (Stopped c) else Some ph
  | None, Stopped c | None, Relaunched c =>
      if isClose c e then None else Some ph
  end.

Fixpoint track (daemon : string) (ph : phase) (tr : list event)
  : option phase :=
  match tr with
  | [] => Some ph
  | e :: tr' => track1 daemon ph e ≫= λ ph', track daemon ph' tr'
  end.

(** The phase of a daemon as the world has it. *)
Definition agrees (w : world) (daemon : string) (ph : phase) : Prop :=
  match ph with
  | Absent => monitoringChannels (w_cluster w) !! daemon = None
  | Running c =>
      ∃ p, monitoringChannels (w_cluster w) !! daemon = Some p
           ∧ w_health w !! p
             = Some {| stopChan := c; monitoringRunning := true |}
           ∧ w_chans w !! c = Some false
  | Stopped c =>
      ∃ p, monitoringChannels (w_cluster w) !! daemon = Some p
           ∧ w_health w !! p
             = Some {| stopChan := c; monitoringRunning := false |}
           ∧ w_chans w !! c = Some true
  | Relaunched c =>
      ∃ p, monitoringChannels (w_cluster w) !! daemon = Some p
           ∧ w_health w !! p
             = Some {| stopChan := c; monitoringRunning := true |}
           ∧ w_chans w !! c = Some true
  end.

(** The invariant of a run: the trace explains every record, and no two
    daemons share a record or a stop channel. *)
Record consistent (w : world) (tr : list event) : Prop := {
  cons_phase : ∀ daemon, ∃ ph, track daemon Absent tr = Some ph
                               ∧ agrees w daemon ph;
  cons_ptr : ∀ d d' p,
    monitoringChannels (w_cluster w) !! d = Some p →
    monitoringChannels (w_cluster w) !! d' = Some p → d = d';
  cons_chan : ∀ d d' p p' h h',
    monitoringChannels (w_cluster w) !! d = Some p →
    monitoringChannels (w_cluster w) !! d' = Some p' →
    w_health w !! p = Some h → w_health w !! p' = Some h' →
    stopChan h = stopChan h' → d = d' }.

(** The stop channel of a phase. *)
Definition phaseChan (ph : phase) : option chan :=
  match ph with
  | Absent => None
  | Running c | Stopped c | Relaunched c => Some c
  end.

(** A daemon is settled when its record already is what the snapshot asks
    for. *)
Definition settled (w : world) (daemon : string) : Prop :=
  match monitoringChannels (w_cluster w) !! daemon with
  | None => isMonitoringDisabled daemon (Spec (w_cluster w)) = true
  | Some p =>
      ∃ h, w_health w !! p = Some h
           ∧ monitoringRunning h
             = negb (isMonitoringDisabled daemon (Spec (w_cluster w)))
  end.

(** The record of [daemon] is still at address [p] and still holds the stop
    channel [c]. *)
Definition recordKept (daemon : string) (p : ptr) (c : chan)
    (w : world) (tr : list event) : Prop :=
  monitoringChannels (w_cluster w) !! daemon = Some p
  ∧ ∃ h, w_health w !! p = Some h ∧ stopChan h = c.

(** A daemon whose next step panics: the snapshot disables it and it runs
    again on its closed channel. *)
(* defs *)
Definition doomed (w : world) (daemon : string) : Prop :=
  isMonitoringDisabled daemon (Spec (w_cluster w)) = true
  ∧ ∃ c, agrees w daemon (Relaunched c).

(** The launches that lead to a phase. *)
Definition phaseLaunches (ph : phase) : list chan :=
  match ph with
  | Absent => []
  | Running c | Stopped c => [c]
  | Relaunched c => [c; c]
  end.

(** Go's message for closing a closed channel. *)
Definition doubleClose : string := "close of closed channel".


(** The stop channel handed to a watcher. *)
Definition watcherStop (e : event) : option chan :=
  match e with
  | EvStartWatch _ stop => Some stop
  | EvGo (BucketController_Run _ stop) => Some stop
  | _ => None
  end.

(** The cluster's [stopCh] is open, belongs to no record, was handed to no
    health check and is the channel of every watcher. *)
Definition stopChApart (w : world) (tr : list event) : Prop :=
  w_chans w !! stopCh (w_cluster w) = Some false
  ∧ closes (stopCh (w_cluster w)) tr = 0
  ∧ (∀ d p h, monitoringChannels (w_cluster w) !! d = Some p →
              w_health w !! p = Some h → stopChan h ≠ stopCh (w_cluster w))
  ∧ (∀ d, stopCh (w_cluster w) ∉ launches d tr)
  ∧ (∀ e c, e ∈ tr → watcherStop e = Some c → c = stopCh (w_cluster w)).

(** The OSD monitor whose [Start] an event spawns. *)
Definition osdStarted (e : event) : option OSDHealthMonitor :=
  match e with
  | EvGo (OSDHealthMonitor_Start m _) => Some m
  | _ => None
  end.

(** The monitor of the latest OSD health check of a trace. *)
Definition lastOsdMonitor (tr : list event) : option OSDHealthMonitor :=
  last (omap osdStarted tr).

(** The controller keeps its context and name, and [c.osdChecker] is the
    latest monitor started, or what it was if none was. *)
Definition osdTracked (c0 : ClusterController) (w : world) (tr : list event)
  : Prop :=
  context (w_controller w) = context c0
  ∧ namespacedName (w_controller w) = namespacedName c0
  ∧ osdChecker (w_controller w)
    = match lastOsdMonitor tr with
      | Some m => Some m
      | None => osdChecker c0
      end.

(** ** Proof automation *)

(** Unfolds the monadic operations down to functions on worlds. *)
Ltac unfold_ops :=
  unfold run, monitoringStopChan, setMonitoringRunning, closeChan, makeChan,
    new, deref, store, Debugf, Infof, go, emit, getCluster, getController,
    putCluster, putController, mbind, M_bind, mret, M_ret in *.

(** Rewrites with the equations in the context. *)
Ltac use_eqs :=
  repeat match goal with
         | H : ?x = _ |- context [?x] => rewrite H
         end.

(** Solves [lhs = rhs] by evaluating the closed side [lhs]. *)
Ltac run_eq :=
  match goal with
  | |- ?lhs = ?rhs =>
      let v := eval vm_compute in lhs in
      unify rhs v; vm_compute; reflexivity
  end.

(** ** The transition taken for one daemon *)

Lemma elem_of_daemons (daemon : string) :
  daemon ∈ daemons ↔ daemon = "mon" ∨ daemon = "osd" ∨ daemon = "status".
Proof.
  unfold daemons. rewrite !elem_of_cons, elem_of_nil. tauto.
Qed.

Lemma startMonitoringCheck_known daemon cephUser w p h :
  daemon ∈ daemons →
  monitoringChannels (w_cluster w) !! daemon = Some p →
  w_health w !! p = Some h →
  run (startMonitoringCheck daemon cephUser) w
  = (Ret tt, started daemon w, launchTrace daemon cephUser w (stopChan h)).
Proof.
  intros Hd Hp Hh. apply elem_of_daemons in Hd.
  unfold startMonitoringCheck, launchTrace, checkerOf, started.
  unfold_ops.
  destruct Hd as [-> | [-> | ->]]; simpl; rewrite Hp; simpl; rewrite Hh;
    reflexivity.
Qed.

Section Transitions.

Context (cephUser daemon : string) (w : world).

Let reg := monitoringChannels (w_cluster w).
Let disabled := isMonitoringDisabled daemon (Spec (w_cluster w)).

Lemma absent_disabled :
  reg !! daemon = None → disabled = true →
  run (configureDaemon cephUser daemon) w = (Ret tt, w, []).
Proof.
  subst reg disabled. intros Hr Hd. unfold configureDaemon. unfold_ops.
  rewrite Hr, Hd. reflexivity.
Qed.

Lemma absent_enabled :
  daemon ∈ daemons → reg !! daemon = None → disabled = false →
  let stop := fresh (dom (w_chans w)) in
  let health := fresh (dom (w_health w)) in
  let w' :=
    withCluster (withMonitoringChannels (<[daemon := health]> reg)
                   (w_cluster w))
      (withHealth
         (<[health := {| stopChan := stop; monitoringRunning := true |}]>
            (w_health w))
         (withChans (<[stop := false]> (w_chans w)) w)) in
  run (configureDaemon cephUser daemon) w
  = (Ret tt, started daemon w', launchTrace daemon cephUser w' stop).
Proof.
  subst reg disabled. intros Hin Hr Hd stop health w'.
  unfold configureDaemon. unfold mbind, M_bind at 1 2 3 4 5. unfold_ops.
  rewrite Hr, Hd. simpl.
  pose proof (startMonitoringCheck_known daemon cephUser w' health
    {| stopChan := stop; monitoringRunning := true |} Hin) as Hs.
  unfold run in Hs. subst w' stop health. simpl in *.
  rewrite Hs; [reflexivity | apply lookup_insert_eq | apply lookup_insert_eq].
Qed.

Lemma running_enabled health h :
  reg !! daemon = Some health → w_health w !! health = Some h →
  monitoringRunning h = true → disabled = false →
  run (configureDaemon cephUser daemon) w
  = (Ret tt, w,
     [EvDebugf runningFormat [daemon; Namespace (w_cluster w)]]).
Proof.
  subst reg disabled. intros Hr Hh Hrun Hd. unfold configureDaemon.
  unfold_ops. rewrite Hr. simpl. rewrite Hh, Hrun, Hd. reflexivity.
Qed.

Lemma running_disabled health h :
  reg !! daemon = Some health → w_health w !! health = Some h →
  monitoringRunning h = true → disabled = true →
  w_chans w !! stopChan h = Some false →
  run (configureDaemon cephUser daemon) w
  = (Ret tt,
     withHealth
       (<[health := {| stopChan := stopChan h; monitoringRunning := false |}]>
          (w_health w))
       (withChans (<[stopChan h := true]> (w_chans w)) w),
     [EvClose (stopChan h)]).
Proof.
  subst reg disabled. intros Hr Hh Hrun Hd Hc. unfold configureDaemon.
  unfold_ops. rewrite Hr. simpl. rewrite Hh, Hrun, Hd. simpl.
  rewrite Hr. simpl. rewrite Hh, Hc. simpl. rewrite Hr. simpl.
  rewrite Hh. simpl. rewrite Hh. reflexivity.
Qed.

(** The stop channel of a running record may be closed already: [close]
    then panics and nothing is written. *)
Lemma running_disabled_closed health h :
  reg !! daemon = Some health → w_health w !! health = Some h →
  monitoringRunning h = true → disabled = true →
  w_chans w !! stopChan h = Some true →
  run (configureDaemon cephUser daemon) w
  = (Panic "close of closed channel", w, []).
Proof.
  subst reg disabled. intros Hr Hh Hrun Hd Hc. unfold configureDaemon.
  unfold_ops. rewrite Hr. simpl. rewrite Hh, Hrun, Hd. simpl.
  rewrite Hr. simpl. rewrite Hh, Hc. reflexivity.
Qed.

Lemma stopped_disabled health h :
  reg !! daemon = Some health → w_health w !! health = Some h →
  monitoringRunning h = false → disabled = true →
  run (configureDaemon cephUser daemon) w = (Ret tt, w, []).
Proof.
  subst reg disabled. intros Hr Hh Hrun Hd. unfold configureDaemon.
  unfold_ops. rewrite Hr. simpl. rewrite Hh, Hrun, Hd. reflexivity.
Qed.

(** The relaunch reads the stop channel that is in the record: no channel
    is made on this path. *)
Lemma stopped_enabled health h :
  daemon ∈ daemons →
  reg !! daemon = Some health → w_health w !! health = Some h →
  monitoringRunning h = false → disabled = false →
  run (configureDaemon cephUser daemon) w
  = (Ret tt,
     withHealth
       (<[health := {| stopChan := stopChan h; monitoringRunning := true |}]>
          (w_health w))
       (started daemon w),
     launchTrace daemon cephUser w (stopChan h)).
Proof.
  subst reg disabled. intros Hin Hr Hh Hrun Hd. unfold configureDaemon.
  unfold mbind, M_bind at 1 2 3. unfold_ops.
  rewrite Hr. simpl. rewrite Hh, Hrun, Hd. simpl.
  pose proof (startMonitoringCheck_known daemon cephUser w health h
                Hin Hr Hh) as Hs.
  unfold run in Hs. rewrite Hs.
  assert (Hc : w_cluster (started daemon w) = w_cluster w)
    by (unfold started; case_decide; reflexivity).
  assert (Hp : w_health (started daemon w) = w_health w)
    by (unfold started; case_decide; reflexivity).
  rewrite Hc, Hr. simpl. rewrite Hp, Hh. simpl. rewrite Hp, Hh.
  reflexivity.
Qed.

End Transitions.

Lemma configureDaemon_transition cephUser daemon w :
  daemon ∈ daemons →
  transition cephUser daemon w (run (configureDaemon cephUser daemon) w).
Proof.
  intros Hin.
  destruct (monitoringChannels (w_cluster w) !! daemon) as [health|] eqn:Hr;
    destruct (isMonitoringDisabled daemon (Spec (w_cluster w))) eqn:Hd.
  - destruct (w_health w !! health) as [h|] eqn:Hh.
    + destruct (monitoringRunning h) eqn:Hrun.
      * destruct (w_chans w !! stopChan h) as [[]|] eqn:Hc.
        -- erewrite running_disabled_closed by eassumption.
           eapply T_running_disabled_closed; eassumption.
        -- erewrite running_disabled by eassumption.
           eapply T_running_disabled; eassumption.
        -- replace (run (configureDaemon cephUser daemon) w)
             with (@Panic unit "close of nil channel", w, @nil event).
           ++ eapply T_running_disabled_nil; eassumption.
           ++ unfold configureDaemon. unfold_ops. rewrite Hr. simpl.
              rewrite Hh, Hrun, Hd. simpl. rewrite Hr. simpl.
              rewrite Hh, Hc. reflexivity.
      * erewrite stopped_disabled by eassumption.
        eapply T_stopped_disabled; eassumption.
    + replace (run (configureDaemon cephUser daemon) w)
        with (@Panic unit nilDeref, w, @nil event).
      * eapply T_nil_record; eassumption.
      * unfold configureDaemon. unfold_ops. rewrite Hr. simpl.
        rewrite Hh. reflexivity.
  - destruct (w_health w !! health) as [h|] eqn:Hh.
    + destruct (monitoringRunning h) eqn:Hrun.
      * erewrite running_enabled by eassumption.
        eapply T_running_enabled; eassumption.
      * erewrite stopped_enabled by eassumption.
        eapply T_stopped_enabled; eassumption.
    + replace (run (configureDaemon cephUser daemon) w)
        with (@Panic unit nilDeref, w, @nil event).
      * eapply T_nil_record; eassumption.
      * unfold configureDaemon. unfold_ops. rewrite Hr. simpl.
        rewrite Hh. reflexivity.
  - rewrite absent_disabled by assumption. by apply T_absent_disabled.
  - rewrite absent_enabled by assumption. by eapply T_absent_enabled.
Qed.

(** ** Invariants of a run *)

Lemma run_bind {A B} (m : M A) (f : A → M B) w :
  run (m ≫= f) w
  = match run m w with
    | (Ret a, w', evs) =>
        match run (f a) w' with
        | (r, w'', evs') => (r, w'', evs ++ evs')
        end
    | (Panic msg, w', evs) => (Panic msg, w', evs)
    end.
Proof. reflexivity. Qed.

Lemma preserves_bind {A B} I (m : M A) (f : A → M B) :
  preserves I m → (∀ a, preserves I (f a)) → preserves I (m ≫= f).
Proof.
  intros Hm Hf w tr r w' evs HI. rewrite run_bind.
  destruct (run m w) as [[[a|msg] w1] e1] eqn:E1.
  - destruct (run (f a) w1) as [[r2 w2] e2] eqn:E2.
    intros [= <- <- <-]. rewrite app_assoc.
    eapply Hf; [|exact E2]. eapply Hm; eassumption.
  - intros [= <- <- <-]. eapply Hm; eassumption.
Qed.

Lemma preserves_forRange {A} I (l : list A) (body : A → M unit) :
  (∀ x, x ∈ l → preserves I (body x)) → preserves I (forRange l body).
Proof.
  induction l as [|x l IH]; intros Hbody.
  - intros w tr r w' evs HI [= <- <- <-]. by rewrite app_nil_r.
  - simpl. apply preserves_bind.
    + apply Hbody. by left.
    + intros _. apply IH. intros y Hy. apply Hbody. by right.
Qed.

(** The pass after its loop. *)
Lemma configureCephMonitoring_run cephUser w :
  run (configureCephMonitoring cephUser) w
  = match run (forRange daemons (configureDaemon cephUser)) w with
    | (Ret _, w1, evs) =>
        if watchersActivated (w_cluster w1) then
          (Ret tt, w1,
           evs ++
           [EvDebugf watchedFormat [Namespace (w_cluster w1)]])
        else
          (Ret tt,
           withCluster (withWatchersActivated true (w_cluster w1)) w1,
           evs ++
           [EvStartWatch
              (NewClientController (context (w_controller w1))
                 (Namespace (w_cluster w1)))
              (stopCh (w_cluster w1));
            EvGo
              (BucketController_Run
                 (NewBucketController (KubeConfig (context (w_controller w1)))
                    (NewProvisioner (context (w_controller w1))
                       (Namespace (w_cluster w1)) cephUser))
                 (stopCh (w_cluster w1)))])
    | (Panic msg, w1, evs) => (Panic msg, w1, evs)
    end.
Proof.
  unfold configureCephMonitoring. rewrite run_bind.
  destruct (run (forRange daemons (configureDaemon cephUser)) w)
    as [[[[]|msg] w1] evs]; [|reflexivity].
  unfold_ops. simpl. destruct (watchersActivated (w_cluster w1)); reflexivity.
Qed.

Lemma reconcile_run pass w :
  run (reconcile pass) w
  = run (configureCephMonitoring pass.2)
      (withCluster (withSpec pass.1 (w_cluster w)) w).
Proof.
  unfold reconcile, setSpec. unfold_ops. simpl.
  destruct (configureCephMonitoring pass.2 _) as [[r w'] evs]. reflexivity.
Qed.

(** Lifting an invariant from the loop body to passes and runs. *)
Lemma preserves_pass I :
  (∀ cephUser daemon,
     daemon ∈ daemons → preserves I (configureDaemon cephUser daemon)) →
  (∀ w tr spec, I w tr → I (withCluster (withSpec spec (w_cluster w)) w) tr) →
  (∀ w tr, I w tr →
     watchersActivated (w_cluster w) = true → ∀ e, isDebug e = true →
     I w (tr ++ [e])) →
  (∀ w tr cc bc, I w tr →
     watchersActivated (w_cluster w) = false →
     I (withCluster (withWatchersActivated true (w_cluster w)) w)
       (tr ++ [EvStartWatch cc (stopCh (w_cluster w));
               EvGo (BucketController_Run bc (stopCh (w_cluster w)))])) →
  ∀ pass, preserves I (reconcile pass).
Proof.
  intros Hbody Hspec Hdebug Hwatch pass w tr r w' evs HI.
  rewrite reconcile_run, configureCephMonitoring_run.
  apply (Hspec _ _ pass.1) in HI.
  destruct (run (forRange daemons (configureDaemon pass.2)) _)
    as [[[[]|msg] w1] e1] eqn:E.
  - eapply (preserves_forRange I) in E; [| intros; by apply Hbody | exact HI].
    destruct (watchersActivated (w_cluster w1)) eqn:Hg;
      intros [= <- <- <-]; rewrite app_assoc.
    + by apply Hdebug.
    + by apply Hwatch.
  - eapply (preserves_forRange I) in E; [| intros; by apply Hbody | exact HI].
    by intros [= <- <- <-].
Qed.

Lemma preserves_run I :
  (∀ pass, preserves I (reconcile pass)) →
  ∀ passes, preserves I (reconcileAll passes).
Proof. intros H passes. apply preserves_forRange. intros; apply H. Qed.

(** ** The activation gate *)

Lemma watchStarts_app tr evs :
  watchStarts (tr ++ evs) = watchStarts tr + watchStarts evs.
Proof. unfold watchStarts. by rewrite filter_app, length_app. Qed.

Lemma bucketRuns_app tr evs :
  bucketRuns (tr ++ evs) = bucketRuns tr + bucketRuns evs.
Proof. unfold bucketRuns. by rewrite filter_app, length_app. Qed.

Lemma started_cluster daemon w : w_cluster (started daemon w) = w_cluster w.
Proof. unfold started. by case_decide. Qed.

Lemma started_health daemon w : w_health (started daemon w) = w_health w.
Proof. unfold started. by case_decide. Qed.

Lemma started_chans daemon w : w_chans (started daemon w) = w_chans w.
Proof. unfold started. by case_decide. Qed.

Lemma launchTrace_watch daemon cephUser w stop :
  watchStarts (launchTrace daemon cephUser w stop) = 0
  ∧ bucketRuns (launchTrace daemon cephUser w stop) = 0.
Proof.
  unfold launchTrace, checkerOf. by repeat case_decide.
Qed.

(** What the loop body never touches. *)
Lemma transition_frame cephUser daemon w r w' evs :
  transition cephUser daemon w (r, w', evs) →
  watchersActivated (w_cluster w') = watchersActivated (w_cluster w)
  ∧ Spec (w_cluster w') = Spec (w_cluster w)
  ∧ Namespace (w_cluster w') = Namespace (w_cluster w)
  ∧ stopCh (w_cluster w') = stopCh (w_cluster w)
  ∧ watchStarts evs = 0 ∧ bucketRuns evs = 0.
Proof.
  inversion 1; subst; simpl; rewrite ?started_cluster; simpl;
    repeat split; try reflexivity; apply launchTrace_watch.
Qed.

Lemma gateCounts_pass pass : preserves gateCounts (reconcile pass).
Proof.
  apply preserves_pass.
  - intros cephUser daemon Hin w tr r w' evs [H1 H2] E.
    pose proof (configureDaemon_transition cephUser daemon w Hin) as T.
    rewrite E in T. apply transition_frame in T as (Hg & _ & _ & _ & Hw & Hb).
    unfold gateCounts. rewrite watchStarts_app, bucketRuns_app, Hg, Hw, Hb.
    by rewrite !Nat.add_0_r.
  - intros w tr spec H. exact H.
  - intros w tr [H1 H2] Hg [] He; try discriminate.
    unfold gateCounts. rewrite watchStarts_app, bucketRuns_app.
    rewrite H1, H2, Hg. by vm_compute.
  - intros w tr cc bc [H1 H2] Hg.
    unfold gateCounts. rewrite watchStarts_app, bucketRuns_app.
    rewrite H1, H2, Hg. by vm_compute.
Qed.

Lemma gateSet_pass pass : preserves gateSet (reconcile pass).
Proof.
  apply preserves_pass; unfold gateSet; try done.
  intros cephUser daemon Hin w tr r w' evs Hg E.
  pose proof (configureDaemon_transition cephUser daemon w Hin) as T.
  rewrite E in T. apply transition_frame in T as (Hg' & _). congruence.
Qed.

Lemma startMonitoringCheck_cluster daemon cephUser w :
  w_cluster (run (startMonitoringCheck daemon cephUser) w).1.2 = w_cluster w.
Proof.
  unfold startMonitoringCheck. unfold_ops.
  repeat case_decide; simpl; try reflexivity;
    destruct (monitoringChannels (w_cluster w) !! daemon) as [p|]; simpl;
    try reflexivity; destruct (w_health w !! p); reflexivity.
Qed.

(** The first pass on a new cluster returns and sets the gate. *)
Lemma first_pass c namespace spec pass :
  ∃ w1 evs,
    run (reconcile pass) (initWorld c namespace spec) = (Ret tt, w1, evs)
    ∧ watchersActivated (w_cluster w1) = true
    ∧ gateCounts w1 evs.
Proof.
  destruct pass as [[[[[s] [m] [o]]] rm] u].
  destruct s, m, o; vm_compute; eexists _, _; (split; [reflexivity|]);
    repeat split.
Qed.

(** ** The life of a record, read off the trace *)

Lemma track_app daemon ph tr evs :
  track daemon ph (tr ++ evs)
  = track daemon ph tr ≫= λ ph', track daemon ph' evs.
Proof.
  revert ph. induction tr as [|e tr IH]; intros ph; simpl; [done|].
  destruct (track1 daemon ph e); simpl; [apply IH | done].
Qed.

Lemma track_snoc daemon ph ph' tr evs :
  track daemon ph tr = Some ph' →
  track daemon ph (tr ++ evs) = track daemon ph' evs.
Proof. intros H. by rewrite track_app, H. Qed.

Lemma goroutineDaemon_checkerOf daemon cephUser cl c stop :
  daemon ∈ daemons →
  goroutineDaemon (checkerOf daemon cephUser cl c stop) = Some daemon
  ∧ goroutineStop (checkerOf daemon cephUser cl c stop) = stop.
Proof.
  rewrite elem_of_daemons. unfold checkerOf.
  intros [-> | [-> | ->]]; by repeat case_decide.
Qed.

Lemma track_launch_self daemon cephUser w stop ph :
  daemon ∈ daemons →
  track daemon ph (launchTrace daemon cephUser w stop)
  = match ph with
    | Absent => Some (Running stop)
    | Stopped c0 =>
        if decide (stop = c0) then Some (Relaunched c0) else None
    | _ => None
    end.
Proof.
  intros Hin. unfold launchTrace. simpl.
  destruct (goroutineDaemon_checkerOf daemon cephUser (w_cluster w)
              (w_controller w) stop Hin) as [Hd Hs].
  assert (Hl : ∀ ph', track1 daemon ph'
            (EvGo (checkerOf daemon cephUser (w_cluster w)
                     (w_controller w) stop))
          = match ph' with
            | Absent => Some (Running stop)
            | Stopped c0 =>
                if decide (stop = c0) then Some (Relaunched c0) else None
            | _ => None
            end).
  { intros ph'. unfold track1, launchOf. rewrite Hd, Hs.
    rewrite decide_True by done. by destruct ph'. }
  destruct ph; simpl; rewrite Hl; simpl; try done. by case_decide.
Qed.

Lemma track_launch_other daemon d cephUser w stop ph :
  daemon ∈ daemons → daemon ≠ d →
  track d ph (launchTrace daemon cephUser w stop) = Some ph.
Proof.
  intros Hin Hne. unfold launchTrace. simpl.
  destruct (goroutineDaemon_checkerOf daemon cephUser (w_cluster w)
              (w_controller w) stop Hin) as [Hd Hs].
  assert (Hl : ∀ ph', track1 d ph'
            (EvGo (checkerOf daemon cephUser (w_cluster w)
                     (w_controller w) stop)) = Some ph').
  { intros ph'. unfold track1, launchOf. rewrite Hd.
    rewrite decide_False by congruence. by destruct ph'. }
  destruct ph; simpl; by rewrite Hl.
Qed.

Lemma track_close_other d ph c :
  phaseChan ph ≠ Some c → track d ph [EvClose c] = Some ph.
Proof.
  destruct ph as [|c0|c0|c0]; intros Hne; try done;
    cbn [track track1 launchOf isClose phaseChan] in *;
    case_bool_decide; simpl; congruence.
Qed.

Lemma track_debug d ph format args :
  track d ph [EvDebugf format args] = Some ph.
Proof. by destruct ph. Qed.

Lemma track_watchers d ph cc bc stop stop' :
  track d ph [EvStartWatch cc stop; EvGo (BucketController_Run bc stop')]
  = Some ph.
Proof. by destruct ph. Qed.

Lemma agrees_absent w d ph :
  agrees w d ph → monitoringChannels (w_cluster w) !! d = None → ph = Absent.
Proof.
  destruct ph; simpl; [done | | |]; intros (p & Hp & _) Hn; congruence.
Qed.

(** The phase is determined by the record and its channel. *)
Lemma agrees_record w d ph p h :
  agrees w d ph →
  monitoringChannels (w_cluster w) !! d = Some p → w_health w !! p = Some h →
  match monitoringRunning h, w_chans w !! stopChan h with
  | true, Some false => ph = Running (stopChan h)
  | false, Some true => ph = Stopped (stopChan h)
  | true, Some true => ph = Relaunched (stopChan h)
  | _, _ => False
  end.
Proof.
  destruct ph; simpl.
  - congruence.
  - intros (p' & Hp & Hh & Hc) Hp' Hh'. simplify_eq. simpl. by rewrite Hc.
  - intros (p' & Hp & Hh & Hc) Hp' Hh'. simplify_eq. simpl. by rewrite Hc.
  - intros (p' & Hp & Hh & Hc) Hp' Hh'. simplify_eq. simpl. by rewrite Hc.
Qed.

Lemma agrees_frame w w' d ph :
  agrees w d ph →
  monitoringChannels (w_cluster w') !! d
  = monitoringChannels (w_cluster w) !! d →
  (∀ p, monitoringChannels (w_cluster w) !! d = Some p →
        w_health w' !! p = w_health w !! p) →
  (∀ c, phaseChan ph = Some c → w_chans w' !! c = w_chans w !! c) →
  agrees w' d ph.
Proof.
  destruct ph; simpl; intros H Hr Hh Hc.
  - congruence.
  - destruct H as (p & Hp & Hhp & Hcp). exists p.
    rewrite Hr, (Hh p Hp), (Hc c eq_refl). done.
  - destruct H as (p & Hp & Hhp & Hcp). exists p.
    rewrite Hr, (Hh p Hp), (Hc c eq_refl). done.
  - destruct H as (p & Hp & Hhp & Hcp). exists p.
    rewrite Hr, (Hh p Hp), (Hc c eq_refl). done.
Qed.

Lemma agrees_phaseChan w d ph c :
  agrees w d ph → phaseChan ph = Some c →
  ∃ p h, monitoringChannels (w_cluster w) !! d = Some p
         ∧ w_health w !! p = Some h ∧ stopChan h = c
         ∧ is_Some (w_chans w !! c).
Proof.
  destruct ph; simpl; [done | | |]; intros (p & Hp & Hh & Hc) [= <-];
    eexists p, _; split_and!; eauto.
Qed.

Lemma consistent_alloc w tr d p :
  consistent w tr → monitoringChannels (w_cluster w) !! d = Some p →
  ∃ h, w_health w !! p = Some h ∧ is_Some (w_chans w !! stopChan h).
Proof.
  intros Hc Hp. destruct (cons_phase _ _ Hc d) as (ph & _ & Ha).
  destruct ph; simpl in Ha; [congruence | | |];
    destruct Ha as (p' & Hp' & Hh & Hch); simplify_eq;
    eexists; split; eauto.
Qed.

(** In a consistent world the phase of another daemon is on another
    channel. *)
Lemma consistent_other_chan w tr d d' p h ph :
  consistent w tr → d ≠ d' →
  monitoringChannels (w_cluster w) !! d = Some p → w_health w !! p = Some h →
  agrees w d' ph → phaseChan ph ≠ Some (stopChan h).
Proof.
  intros Hc Hne Hp Hh Ha Hph.
  destruct (agrees_phaseChan _ _ _ _ Ha Hph) as (p' & h' & Hp' & Hh' & Hs & _).
  apply Hne. by eapply (cons_chan _ _ Hc d d' p p' h h').
Qed.

Lemma consistent_absent_enabled cephUser daemon w tr :
  daemon ∈ daemons → consistent w tr →
  monitoringChannels (w_cluster w) !! daemon = None →
  let stop := fresh (dom (w_chans w)) in
  let health := fresh (dom (w_health w)) in
  let w' :=
    withCluster
      (withMonitoringChannels
         (<[daemon := health]> (monitoringChannels (w_cluster w)))
         (w_cluster w))
      (withHealth
         (<[health := {| stopChan := stop; monitoringRunning := true |}]>
            (w_health w))
         (withChans (<[stop := false]> (w_chans w)) w)) in
  consistent (started daemon w') (tr ++ launchTrace daemon cephUser w' stop).
Proof.
  intros Hin Hc Hr stop health w'.
  assert (Hfh : w_health w !! health = None).
  { apply not_elem_of_dom. apply is_fresh. }
  assert (Hfc : w_chans w !! stop = None).
  { apply not_elem_of_dom. apply is_fresh. }
  assert (Hother : ∀ d p, d ≠ daemon →
            monitoringChannels (w_cluster w) !! d = Some p → p ≠ health).
  { intros d p _ Hp ->. destruct (consistent_alloc _ _ _ _ Hc Hp) as (h & Hh & _).
    congruence. }
  split.
  - intros d. destruct (cons_phase _ _ Hc d) as (ph & Ht & Ha).
    rewrite (track_snoc _ _ _ _ _ Ht).
    destruct (decide (d = daemon)) as [-> | Hne].
    + rewrite (agrees_absent _ _ _ Ha Hr), track_launch_self by done.
      eexists; split; [done|]. exists health.
      rewrite started_cluster, started_health, started_chans. simpl.
      by rewrite !lookup_insert_eq.
    + rewrite track_launch_other by done.
      eexists; split; [done|]. eapply agrees_frame; [exact Ha | | |].
      * rewrite started_cluster. simpl. by rewrite lookup_insert_ne.
      * intros p Hp. rewrite started_health. simpl.
        rewrite lookup_insert_ne; [done|]. intros <-. by eapply Hother.
      * intros c Hph. rewrite started_chans. simpl.
        rewrite lookup_insert_ne; [done|]. intros <-.
        destruct (agrees_phaseChan _ _ _ _ Ha Hph) as (_ & _ & _ & _ & _ & []).
        congruence.
  - intros d d' p. rewrite started_cluster. simpl.
    destruct (decide (d = daemon)) as [-> | Hd];
      destruct (decide (d' = daemon)) as [-> | Hd']; [done | | |].
    + rewrite lookup_insert_eq, lookup_insert_ne by done.
      intros [= <-] Hp'. by destruct (Hother d' health Hd' Hp').
    + rewrite lookup_insert_eq, lookup_insert_ne by done.
      intros Hp [= <-]. by destruct (Hother d health Hd Hp).
    + rewrite !lookup_insert_ne by done. apply (cons_ptr _ _ Hc).
  - intros d d' p p' h h'. rewrite started_cluster, started_health. simpl.
    assert (Hfresh : ∀ d0 p0 h0, d0 ≠ daemon →
              monitoringChannels (w_cluster w) !! d0 = Some p0 →
              w_health w !! p0 = Some h0 → stopChan h0 ≠ stop).
    { intros d0 p0 h0 _ Hp0 Hh0 Hs.
      destruct (consistent_alloc _ _ _ _ Hc Hp0) as (h1 & Hh1 & [b Hb]).
      simplify_eq. congruence. }
    destruct (decide (d = daemon)) as [-> | Hd];
      destruct (decide (d' = daemon)) as [-> | Hd']; [done | | |].
    + rewrite lookup_insert_eq, lookup_insert_ne by done.
      intros [= <-] Hp'. rewrite lookup_insert_eq.
      rewrite lookup_insert_ne by (intros <-; by eapply Hother).
      intros [= <-] Hh' Hs. simpl in Hs. symmetry in Hs.
      by destruct (Hfresh d' p' h' Hd' Hp' Hh').
    + rewrite lookup_insert_eq, lookup_insert_ne by done.
      intros Hp [= <-]. rewrite lookup_insert_eq.
      rewrite lookup_insert_ne by (intros <-; by eapply Hother).
      intros Hh [= <-] Hs. simpl in Hs.
      by destruct (Hfresh d p h Hd Hp Hh).
    + rewrite !lookup_insert_ne by done. intros Hp Hp'.
      pose proof (Hother d p Hd Hp). pose proof (Hother d' p' Hd' Hp').
      rewrite !lookup_insert_ne by done.
      by apply (cons_chan _ _ Hc).
Qed.

Lemma consistent_running_disabled daemon w tr health h :
  consistent w tr →
  monitoringChannels (w_cluster w) !! daemon = Some health →
  w_health w !! health = Some h →
  monitoringRunning h = true →
  w_chans w !! stopChan h = Some false →
  consistent
    (withHealth
       (<[health := {| stopChan := stopChan h; monitoringRunning := false |}]>
          (w_health w))
       (withChans (<[stopChan h := true]> (w_chans w)) w))
    (tr ++ [EvClose (stopChan h)]).
Proof.
  intros Hc Hr Hh Hrun Hch. split.
  - intros d. destruct (cons_phase _ _ Hc d) as (ph & Ht & Ha).
    rewrite (track_snoc _ _ _ _ _ Ht).
    destruct (decide (d = daemon)) as [-> | Hne].
    + pose proof (agrees_record _ _ _ _ _ Ha Hr Hh) as Hph.
      rewrite Hrun, Hch in Hph. subst ph. exists (Stopped (stopChan h)).
      split.
      * cbn [track track1 launchOf isClose].
        by rewrite bool_decide_eq_true_2.
      * exists health. simpl. by rewrite !lookup_insert_eq.
    + assert (Hpc : phaseChan ph ≠ Some (stopChan h)).
      { eapply (consistent_other_chan w tr daemon d); eauto. }
      rewrite track_close_other by done.
      eexists; split; [done|]. eapply agrees_frame; [exact Ha | done | |].
      * intros p Hp. simpl. rewrite lookup_insert_ne; [done|].
        intros <-. apply Hne. by eapply (cons_ptr _ _ Hc).
      * intros c Hph. simpl. rewrite lookup_insert_ne; [done|]. congruence.
  - apply (cons_ptr _ _ Hc).
  - intros d d' p p' h1 h2 Hp Hp'. simpl.
    assert (Hsame : ∀ d0 p0 h0,
              monitoringChannels (w_cluster w) !! d0 = Some p0 →
              <[health := {| stopChan := stopChan h;
                             monitoringRunning := false |}]>
                (w_health w) !! p0 = Some h0 →
              ∃ h', w_health w !! p0 = Some h' ∧ stopChan h' = stopChan h0).
    { intros d0 p0 h0 Hp0. destruct (decide (p0 = health)) as [-> | Hn].
      - rewrite lookup_insert_eq. intros [= <-]. by exists h.
      - rewrite lookup_insert_ne by done. intros Hh0. by exists h0. }
    intros Hh1 Hh2 Hs.
    destruct (Hsame d p h1 Hp Hh1) as (h1' & Hh1' & Hs1).
    destruct (Hsame d' p' h2 Hp' Hh2) as (h2' & Hh2' & Hs2).
    eapply (cons_chan _ _ Hc d d' p p' h1' h2'); eauto. congruence.
Qed.

Lemma consistent_stopped_enabled cephUser daemon w tr health h :
  daemon ∈ daemons → consistent w tr →
  monitoringChannels (w_cluster w) !! daemon = Some health →
  w_health w !! health = Some h →
  monitoringRunning h = false →
  consistent
    (withHealth
       (<[health := {| stopChan := stopChan h; monitoringRunning := true |}]>
          (w_health w))
       (started daemon w))
    (tr ++ launchTrace daemon cephUser w (stopChan h)).
Proof.
  intros Hin Hc Hr Hh Hrun. split.
  - intros d. destruct (cons_phase _ _ Hc d) as (ph & Ht & Ha).
    rewrite (track_snoc _ _ _ _ _ Ht).
    destruct (decide (d = daemon)) as [-> | Hne].
    + pose proof (agrees_record _ _ _ _ _ Ha Hr Hh) as Hph.
      rewrite Hrun in Hph.
      destruct (w_chans w !! stopChan h) as [[]|] eqn:Hch; try done.
      subst ph. rewrite track_launch_self by done.
      rewrite decide_True by done. eexists; split; [done|].
      exists health. simpl. rewrite started_cluster, started_chans.
      by rewrite lookup_insert_eq.
    + rewrite track_launch_other by done.
      eexists; split; [done|]. eapply agrees_frame; [exact Ha | | |].
      * simpl. by rewrite started_cluster.
      * intros p Hp. simpl.
        rewrite lookup_insert_ne; [done|].
        intros <-. apply Hne. by eapply (cons_ptr _ _ Hc).
      * intros c Hph. simpl. by rewrite started_chans.
  - simpl. rewrite started_cluster. apply (cons_ptr _ _ Hc).
  - intros d d' p p' h1 h2. simpl. rewrite started_cluster, ?started_health.
    intros Hp Hp'.
    assert (Hsame : ∀ d0 p0 h0,
              monitoringChannels (w_cluster w) !! d0 = Some p0 →
              <[health := {| stopChan := stopChan h;
                             monitoringRunning := true |}]>
                (w_health w) !! p0 = Some h0 →
              ∃ h', w_health w !! p0 = Some h' ∧ stopChan h' = stopChan h0).
    { intros d0 p0 h0 Hp0. destruct (decide (p0 = health)) as [-> | Hn].
      - rewrite lookup_insert_eq. intros [= <-]. by exists h.
      - rewrite lookup_insert_ne by done. intros Hh0. by exists h0. }
    intros Hh1 Hh2 Hs.
    destruct (Hsame d p h1 Hp Hh1) as (h1' & Hh1' & Hs1).
    destruct (Hsame d' p' h2 Hp' Hh2) as (h2' & Hh2' & Hs2).
    eapply (cons_chan _ _ Hc d d' p p' h1' h2'); eauto. congruence.
Qed.

Lemma consistent_daemon cephUser daemon :
  daemon ∈ daemons → preserves consistent (configureDaemon cephUser daemon).
Proof.
  intros Hin w tr r w' evs Hc E.
  pose proof (configureDaemon_transition cephUser daemon w Hin) as T.
  rewrite E in T. inversion T; subst; rewrite ?app_nil_r; try done.
  - by apply consistent_absent_enabled.
  - split; [| apply (cons_ptr _ _ Hc) | apply (cons_chan _ _ Hc)].
    intros d. destruct (cons_phase _ _ Hc d) as (ph & Ht & Ha).
    rewrite (track_snoc _ _ _ _ _ Ht), track_debug. eauto.
  - by eapply consistent_running_disabled.
  - by eapply consistent_stopped_enabled.
Qed.

Lemma consistent_pass pass : preserves consistent (reconcile pass).
Proof.
  apply preserves_pass.
  - intros. by apply consistent_daemon.
  - intros w tr spec Hc. split;
      [| apply (cons_ptr _ _ Hc) | apply (cons_chan _ _ Hc)].
    intros d. destruct (cons_phase _ _ Hc d) as (ph & Ht & Ha).
    exists ph. split; [done|]. by eapply agrees_frame.
  - intros w tr Hc _ [] He; try discriminate.
    split; [| apply (cons_ptr _ _ Hc) | apply (cons_chan _ _ Hc)].
    intros d. destruct (cons_phase _ _ Hc d) as (ph & Ht & Ha).
    rewrite (track_snoc _ _ _ _ _ Ht), track_debug. eauto.
  - intros w tr cc bc Hc _.
    split; [| apply (cons_ptr _ _ Hc) | apply (cons_chan _ _ Hc)].
    intros d. destruct (cons_phase _ _ Hc d) as (ph & Ht & Ha).
    rewrite (track_snoc _ _ _ _ _ Ht), track_watchers.
    exists ph. split; [done|]. by eapply agrees_frame.
Qed.

Lemma consistent_init c namespace spec :
  consistent (initWorld c namespace spec) [].
Proof.
  split.
  - intros d. exists Absent. split; [done|]. simpl. apply lookup_empty.
  - intros d d' p. simpl. by rewrite lookup_empty.
  - intros d d' p p' h h'. simpl. by rewrite lookup_empty.
Qed.

(** Every run from a new cluster is consistent, however it ended. *)
Lemma consistent_run c namespace spec passes r w tr :
  run (reconcileAll passes) (initWorld c namespace spec) = (r, w, tr) →
  consistent w tr.
Proof.
  intros E.
  apply (preserves_run consistent consistent_pass passes _ [] r w tr
           (consistent_init c namespace spec) E).
Qed.

(** ** Counting launches and closes *)

Lemma launches_cons d e tr :
  launches d (e :: tr)
  = match launchOf d e with Some c => c :: launches d tr | None => launches d tr end.
Proof. reflexivity. Qed.

Lemma closes_cons c e tr :
  closes c (e :: tr) = (if isClose c e then 1 else 0) + closes c tr.
Proof.
  unfold closes. rewrite filter_cons.
  case_decide as H; destruct (isClose c e); simpl; congruence.
Qed.

(** Without a launch the observer can only see the one close. *)
Lemma track_no_launch d tr : ∀ ph ph',
  launches d tr = [] → track d ph tr = Some ph' →
  match ph with
  | Absent => ph' = Absent
  | Running c => (ph' = Running c ∧ closes c tr = 0)
                 ∨ (ph' = Stopped c ∧ closes c tr = 1)
  | Stopped c => ph' = Stopped c ∧ closes c tr = 0
  | Relaunched c => ph' = Relaunched c ∧ closes c tr = 0
  end.
Proof.
  induction tr as [|e tr IH]; intros ph ph'.
  - intros _ [= <-]. destruct ph; auto.
  - rewrite launches_cons. destruct (launchOf d e) eqn:El; [done|].
    intros Hl. cbn [track]. unfold track1. rewrite El.
    destruct ph as [|c|c|c]; cbn [mbind option_bind]; simpl.
    + intros H. by apply (IH Absent).
    + rewrite closes_cons. destruct (isClose c e); simpl; intros H.
      * right. destruct (IH (Stopped c) ph' Hl H) as [-> ->]. done.
      * apply (IH (Running c) ph' Hl H).
    + rewrite closes_cons. destruct (isClose c e); simpl; intros H; [done|].
      apply (IH (Stopped c) ph' Hl H).
    + rewrite closes_cons. destruct (isClose c e); simpl; intros H; [done|].
      apply (IH (Relaunched c) ph' Hl H).
Qed.

Lemma active_no_launch d tr : launches d tr = [] → active d tr = 0.
Proof.
  induction tr as [|e tr IH]; [done|].
  rewrite launches_cons. simpl. destruct (launchOf d e); [done|]. exact IH.
Qed.

Lemma track_active d tr : ∀ ph ph',
  track d ph tr = Some ph' →
  match ph with
  | Absent | Stopped _ => active d tr ≤ 1
  | Running c => active d tr ≤ 1 ∧ (launches d tr ≠ [] → 1 ≤ closes c tr)
  | Relaunched _ => launches d tr = []
  end.
Proof.
  induction tr as [|e tr IH]; intros ph ph'.
  - intros _. destruct ph; simpl; try lia; try done. split; [lia | done].
  - cbn [track active]. rewrite launches_cons. unfold track1.
    destruct (launchOf d e) as [c'|] eqn:El.
    + destruct ph as [|c|c|c]; cbn [mbind option_bind]; try done.
      * intros H. destruct (IH _ _ H) as [Ha Hc]. case_decide as Hz; [|lia].
        destruct (launches d tr) eqn:Hl.
        -- rewrite active_no_launch by done. lia.
        -- assert (1 ≤ closes c' tr) by (by apply Hc). lia.
      * case_decide as Hcc; [subst c'|done]. simpl. intros H.
        pose proof (IH _ _ H) as Hl. simpl in Hl.
        rewrite (active_no_launch _ _ Hl). case_decide; lia.
    + destruct ph as [|c|c|c]; cbn [mbind option_bind].
      * intros H. apply (IH _ _ H).
      * rewrite closes_cons. destruct (isClose c e); simpl; intros H.
        -- pose proof (IH _ _ H) as Ha. simpl in Ha. split; [done|lia].
        -- apply (IH _ _ H).
      * destruct (isClose c e); simpl; intros H; [done|]. apply (IH _ _ H).
      * destruct (isClose c e); simpl; intros H; [done|]. apply (IH _ _ H).
Qed.

Lemma track_prefix d ph t rest ph' :
  track d ph (t ++ rest) = Some ph' → ∃ ph1, track d ph t = Some ph1
                                            ∧ track d ph1 rest = Some ph'.
Proof.
  rewrite track_app. destruct (track d ph t) as [ph1|]; [|done]. eauto.
Qed.

Lemma track_Absent d tr : ∀ ph,
  track d ph tr = Some Absent → ph = Absent ∧ launches d tr = [].
Proof.
  induction tr as [|e tr IH]; intros ph.
  - by intros [= ->].
  - cbn [track]. rewrite launches_cons.
    destruct (track1 d ph e) as [ph1|] eqn:E1; [|done]. simpl.
    intros H. destruct (IH _ H) as [-> Hl]. unfold track1 in E1.
    destruct (launchOf d e), ph; try done; repeat case_match; done.
Qed.

(** Between two consecutive launches of a daemon its stop channel was closed
    exactly once. *)
Lemma track_between d t1 g1 t2 g2 t3 ph :
  track d Absent (t1 ++ EvGo g1 :: t2 ++ EvGo g2 :: t3) = Some ph →
  goroutineDaemon g1 = Some d → goroutineDaemon g2 = Some d →
  launches d t2 = [] →
  closes (goroutineStop g1) t2 = 1.
Proof.
  intros H Hg1 Hg2 Hl.
  apply track_prefix in H as (ph1 & _ & H). cbn [track] in H.
  destruct (track1 d ph1 (EvGo g1)) as [ph2|] eqn:E1; [|done]. simpl in H.
  apply track_prefix in H as (ph3 & H2 & H). cbn [track] in H.
  destruct (track1 d ph3 (EvGo g2)) as [ph4|] eqn:E2; [|done].
  unfold track1, launchOf in E1, E2. rewrite Hg1 in E1. rewrite Hg2 in E2.
  rewrite decide_True in E1 by done. rewrite decide_True in E2 by done.
  pose proof (track_no_launch d t2 ph2 ph3 Hl H2) as Hn.
  destruct ph1; try done.
  - injection E1 as <-. destruct Hn as [[-> _] | [-> Hc]]; done.
  - case_decide; [|done]. injection E1 as <-. destruct Hn as [-> _]. done.
Qed.

(** ** Settled daemons *)

Lemma settles cephUser daemon w w' evs :
  daemon ∈ daemons →
  run (configureDaemon cephUser daemon) w = (Ret tt, w', evs) →
  settled w' daemon.
Proof.
  intros Hin E.
  pose proof (configureDaemon_transition cephUser daemon w Hin) as T.
  rewrite E in T. unfold settled.
  inversion T; subst; simpl; rewrite ?started_cluster, ?started_health; simpl;
    rewrite ?lookup_insert_eq; use_eqs; rewrite ?lookup_insert_eq;
    try done; eexists; (split; [done|]); simpl; by use_eqs.
Qed.

Lemma settled_step cephUser daemon d w tr w' evs :
  consistent w tr → daemon ∈ daemons → d ≠ daemon → settled w d →
  run (configureDaemon cephUser daemon) w = (Ret tt, w', evs) →
  settled w' d.
Proof.
  intros Hc Hin Hne Hs E.
  pose proof (configureDaemon_transition cephUser daemon w Hin) as T.
  rewrite E in T. unfold settled in *.
  assert (Hp : ∀ p p', monitoringChannels (w_cluster w) !! d = Some p →
             monitoringChannels (w_cluster w) !! daemon = Some p' → p' ≠ p).
  { intros p p' H1 H2 ->. apply Hne. by eapply (cons_ptr _ _ Hc). }
  inversion T; subst; simpl; rewrite ?started_cluster, ?started_health;
    simpl; try done.
  - rewrite lookup_insert_ne by done.
    destruct (monitoringChannels (w_cluster w) !! d) as [p|] eqn:Hd; [|done].
    destruct Hs as (h & Hh & Hrun).
    rewrite lookup_insert_ne; [eauto|].
    intros Hf. pose proof (is_fresh (dom (w_health w))) as Hfresh.
    rewrite Hf in Hfresh. apply Hfresh. apply elem_of_dom. eauto.
  - destruct (monitoringChannels (w_cluster w) !! d) as [p|] eqn:Hd; [|done].
    rewrite lookup_insert_ne by eauto. done.
  - destruct (monitoringChannels (w_cluster w) !! d) as [p|] eqn:Hd; [|done].
    rewrite lookup_insert_ne by eauto. done.
Qed.

Lemma settled_loop cephUser l : ∀ w tr w' evs d,
  l ⊆ daemons → consistent w tr → d ∉ l → settled w d →
  run (forRange l (configureDaemon cephUser)) w = (Ret tt, w', evs) →
  settled w' d.
Proof.
  induction l as [|x l IH]; intros w tr w' evs d Hsub Hc Hd Hs.
  - by intros [= <- <-].
  - simpl. rewrite run_bind.
    destruct (run (configureDaemon cephUser x) w) as [[[[]|msg] w1] e1] eqn:E1;
      [|done].
    destruct (run (forRange l (configureDaemon cephUser)) w1)
      as [[r2 w2] e2] eqn:E2.
    intros [= -> <- <-].
    assert (Hx : x ∈ daemons) by (apply Hsub; by left).
    eapply (IH w1 (tr ++ e1)); [| | | |exact E2].
    + intros y Hy. apply Hsub. by right.
    + eapply consistent_daemon; eauto.
    + intros Hy. apply Hd. by right.
    + eapply settled_step; eauto. intros ->. apply Hd. by left.
Qed.

Lemma loop_settles cephUser l : ∀ w tr w' evs,
  l ⊆ daemons → NoDup l → consistent w tr →
  run (forRange l (configureDaemon cephUser)) w = (Ret tt, w', evs) →
  ∀ d, d ∈ l → settled w' d.
Proof.
  induction l as [|x l IH]; intros w tr w' evs Hsub Hnd Hc.
  - intros _ d Hd. by apply elem_of_nil in Hd.
  - simpl. rewrite run_bind.
    destruct (run (configureDaemon cephUser x) w) as [[[[]|msg] w1] e1] eqn:E1;
      [|done].
    destruct (run (forRange l (configureDaemon cephUser)) w1)
      as [[r2 w2] e2] eqn:E2.
    intros [= -> <- <-] d Hd.
    assert (Hx : x ∈ daemons) by (apply Hsub; by left).
    assert (Hsub' : l ⊆ daemons) by (intros y Hy; apply Hsub; by right).
    assert (Hc1 : consistent w1 (tr ++ e1)) by (eapply consistent_daemon; eauto).
    apply NoDup_cons in Hnd as [Hxl Hnd].
    apply elem_of_cons in Hd as [-> | Hd].
    + eapply settled_loop; [exact Hsub' | exact Hc1 | exact Hxl | | exact E2].
      eapply settles; eauto.
    + eapply IH; eauto.
Qed.

(** On a settled daemon the loop body changes nothing and only logs. *)
Lemma settled_quiet cephUser daemon w :
  settled w daemon →
  ∃ evs, run (configureDaemon cephUser daemon) w = (Ret tt, w, evs)
         ∧ Forall (λ e, isDebug e = true) evs.
Proof.
  unfold settled. intros Hs.
  destruct (monitoringChannels (w_cluster w) !! daemon) as [p|] eqn:Hr.
  - destruct Hs as (h & Hh & Hrun).
    destruct (isMonitoringDisabled daemon (Spec (w_cluster w))) eqn:Hd;
      simpl in Hrun.
    + erewrite stopped_disabled by eassumption. eauto.
    + erewrite running_enabled by eassumption.
      eexists; split; [done|]. by repeat constructor.
  - rewrite absent_disabled by assumption. eauto.
Qed.

Lemma loop_quiet cephUser l w :
  (∀ d, d ∈ l → settled w d) →
  ∃ evs, run (forRange l (configureDaemon cephUser)) w = (Ret tt, w, evs)
         ∧ Forall (λ e, isDebug e = true) evs.
Proof.
  induction l as [|x l IH]; intros Hs.
  - by exists [].
  - destruct (settled_quiet cephUser x w) as (e1 & E1 & H1).
    { apply Hs. by left. }
    destruct IH as (e2 & E2 & H2).
    { intros d Hd. apply Hs. by right. }
    exists (e1 ++ e2). split; [|by apply Forall_app].
    simpl. rewrite run_bind, E1, E2. done.
Qed.

Lemma settled_gate w d :
  settled w d →
  settled (withCluster (withWatchersActivated true (w_cluster w)) w) d.
Proof. done. Qed.

Lemma withSpec_same w :
  withCluster (withSpec (Spec (w_cluster w)) (w_cluster w)) w = w.
Proof. by destruct w as [[] ? ? ?]. Qed.

Lemma NoDup_daemons : NoDup daemons.
Proof. apply (bool_decide_unpack _). by vm_compute. Qed.

(** A pass that returned leaves every daemon settled, the gate set and the
    snapshot in place. *)
Lemma pass_settles w tr pass w1 evs :
  consistent w tr →
  run (reconcile pass) w = (Ret tt, w1, evs) →
  (∀ d, d ∈ daemons → settled w1 d)
  ∧ watchersActivated (w_cluster w1) = true
  ∧ Spec (w_cluster w1) = pass.1.
Proof.
  intros Hc. rewrite reconcile_run, configureCephMonitoring_run.
  destruct (run (forRange daemons (configureDaemon pass.2)) _)
    as [[[[]|msg] w3] e3] eqn:E; [|done].
  assert (Hs : ∀ d, d ∈ daemons → settled w3 d).
  { eapply (loop_settles pass.2 daemons _ tr); [done | | | exact E].
    - apply NoDup_daemons.
    - split; [| apply (cons_ptr _ _ Hc) | apply (cons_chan _ _ Hc)].
      intros d. destruct (cons_phase _ _ Hc d) as (ph & Ht & Ha).
      exists ph. split; [done|]. by eapply agrees_frame. }
  assert (Hspec : Spec (w_cluster w3) = pass.1).
  { pose proof (preserves_forRange
      (λ w' _, Spec (w_cluster w') = pass.1) daemons
      (configureDaemon pass.2)) as Hp.
    eapply (Hp _ _ [] _ _ _ _ E). Unshelve. 2: done.
    intros d Hd w' tr' r' w'' evs' Hsp E'.
    pose proof (configureDaemon_transition pass.2 d w' Hd) as T.
    rewrite E' in T. apply transition_frame in T as (_ & -> & _). done. }
  destruct (watchersActivated (w_cluster w3)) eqn:Hg; intros [= <- <-].
  - done.
  - split_and!; [|done|done]. intros d Hd. apply settled_gate. by apply Hs.
Qed.

Lemma recordKept_pass daemon p c pass :
  preserves (recordKept daemon p c) (reconcile pass).
Proof.
  apply preserves_pass; try done.
  intros cephUser d Hin w tr r w' evs (Hp & h & Hh & Hs) E.
  pose proof (configureDaemon_transition cephUser d w Hin) as T.
  rewrite E in T. unfold recordKept.
  inversion T; subst; simpl; rewrite ?started_cluster, ?started_health;
    simpl; eauto.
  - assert (fresh (dom (w_health w)) ≠ p).
    { intros Hf. pose proof (is_fresh (dom (w_health w))) as Hfresh.
      rewrite Hf in Hfresh. apply Hfresh. apply elem_of_dom. eauto. }
    rewrite !lookup_insert_ne by congruence. eauto.
  - split; [done|]. destruct (decide (health = p)) as [-> | Hne].
    + rewrite lookup_insert_eq. eexists; split; [done|]. simpl. congruence.
    + rewrite lookup_insert_ne by done. eauto.
  - split; [done|]. destruct (decide (health = p)) as [-> | Hne].
    + rewrite lookup_insert_eq. eexists; split; [done|]. simpl. congruence.
    + rewrite lookup_insert_ne by done. eauto.
Qed.

(** ** Claims *)

(** C1, at the failing input.  On a new cluster the passes "mon enabled",
    "mon disabled", "mon enabled" return, and a fourth pass "mon disabled"
    ends in the Go panic "close of closed channel": the second disable closes
    the stop channel that the first disable closed. *)
Theorem enable_disable_twice_panics c namespace spec u :
  (run (reconcileAll [(enabledSpec ["mon"], u); (enabledSpec [], u);
                      (enabledSpec ["mon"], u)])
     (initWorld c namespace spec)).1.1
  = Ret tt
  ∧ (run (reconcileAll [(enabledSpec ["mon"], u); (enabledSpec [], u);
                        (enabledSpec ["mon"], u); (enabledSpec [], u)])
       (initWorld c namespace spec)).1.1
    = Panic "close of closed channel".
Proof. by vm_compute. Qed.

(** C2, at the failing input.  After "mon enabled" then "mon disabled" the
    record of mon is stopped and its stop channel is closed.  The next pass
    with mon enabled returns, keeps the record at the same address, makes no
    channel, and hands the new goroutine that same closed channel. *)
Theorem relaunch_gets_the_closed_channel c namespace spec u :
  let w2 := (run (reconcileAll [(enabledSpec ["mon"], u); (enabledSpec [], u)])
               (initWorld c namespace spec)).1.2 in
  let r3 := run (reconcile (enabledSpec ["mon"], u)) w2 in
  ∃ p stop,
    monitoringChannels (w_cluster w2) !! "mon" = Some p
    ∧ w_health w2 !! p
      = Some {| stopChan := stop; monitoringRunning := false |}
    ∧ w_chans w2 !! stop = Some true
    ∧ r3.1.1 = Ret tt
    ∧ launches "mon" r3.2 = [stop]
    ∧ monitoringChannels (w_cluster r3.1.2) !! "mon" = Some p
    ∧ w_health r3.1.2 !! p
      = Some {| stopChan := stop; monitoringRunning := true |}
    ∧ w_chans r3.1.2 = w_chans w2.
Proof. exists 0, 1. by vm_compute. Qed.

(** C3, at the failing input.  After "mon enabled", "mon disabled",
    "mon enabled" the record of mon is running.  A pass with mon disabled does
    not take the row "Running and disabled": it panics in [close], emits
    nothing, and the record still says running. *)
Theorem running_disabled_row_panics c namespace spec u :
  let w3 := (run (reconcileAll [(enabledSpec ["mon"], u); (enabledSpec [], u);
                                (enabledSpec ["mon"], u)])
               (initWorld c namespace spec)).1.2 in
  let r4 := run (reconcile (enabledSpec [], u)) w3 in
  ∃ p stop,
    monitoringChannels (w_cluster w3) !! "mon" = Some p
    ∧ w_health w3 !! p = Some {| stopChan := stop; monitoringRunning := true |}
    ∧ isMonitoringDisabled "mon" (enabledSpec []) = true
    ∧ r4.1.1 = Panic "close of closed channel"
    ∧ r4.2 = []
    ∧ w_health r4.1.2 !! p
      = Some {| stopChan := stop; monitoringRunning := true |}.
Proof. exists 0, 1. by vm_compute. Qed.

(** C4. Reconciliation is idempotent: in every state reached from a new
    cluster, when a pass with some snapshot has returned, a second pass with
    the same snapshot returns in the same state (so no record is made or
    changed) and its only effects are debug log lines: it launches nothing,
    closes nothing and starts no watcher. *)
Theorem reconcile_idempotent c namespace spec passes w tr snapshot u1 u2 w1 evs1 :
  run (reconcileAll passes) (initWorld c namespace spec) = (Ret tt, w, tr) →
  run (reconcile (snapshot, u1)) w = (Ret tt, w1, evs1) →
  ∃ evs2,
    run (reconcile (snapshot, u2)) w1 = (Ret tt, w1, evs2)
    ∧ Forall (λ e, isDebug e = true) evs2.
Proof.
  intros Hreach E1.
  pose proof (consistent_run _ _ _ _ _ _ _ Hreach) as Hc.
  destruct (pass_settles _ _ _ _ _ Hc E1) as (Hs & Hg & Hspec).
  simpl in Hspec.
  rewrite reconcile_run, configureCephMonitoring_run. cbn [fst snd].
  rewrite <- Hspec, withSpec_same.
  destruct (loop_quiet u2 daemons w1 Hs) as (e2 & E2 & Hd).
  rewrite E2, Hg. eexists; split; [done|].
  apply Forall_app. split; [done|]. by repeat constructor.
Qed.

Lemma reconcile_idempotent_witness :
  let passes := [(enabledSpec ["mon"], "admin"); (enabledSpec [], "admin")] in
  let w := (run (reconcileAll passes) w0).1.2 in
  let w1 := (run (reconcile (enabledSpec ["mon"; "osd"], "admin")) w).1.2 in
  (run (reconcileAll passes) w0).1.1 = Ret tt
  ∧ (run (reconcile (enabledSpec ["mon"; "osd"], "admin")) w).1.1 = Ret tt
  ∧ ∃ evs2,
      run (reconcile (enabledSpec ["mon"; "osd"], "admin")) w1
      = (Ret tt, w1, evs2)
      ∧ Forall (λ e, isDebug e = true) evs2.
Proof.
  intros passes w w1. split; [reflexivity|]. split; [reflexivity|].
  apply (reconcile_idempotent aController "rook-ceph"
           (specOf false false false) passes w
           (run (reconcileAll passes) w0).2
           (enabledSpec ["mon"; "osd"]) "admin" "admin" w1
           (run (reconcile (enabledSpec ["mon"; "osd"], "admin")) w).2).
  - vm_compute. reflexivity.
  - vm_compute. reflexivity.
Defined.

(** C5. The activation gate of a new cluster is unset.  Any run of one or
    more passes from a new cluster (so of N > 1 passes too) starts the client
    watcher exactly once and spawns the bucket controller exactly once,
    however the run ends.  A pass or a call of [startMonitoringCheck] in a
    world whose gate is set leaves it set. *)
Theorem activation_gate_one_shot :
  (∀ namespace spec, watchersActivated (newCluster namespace spec) = false)
  ∧ (∀ c namespace spec passes,
       0 < length passes →
       watchStarts (run (reconcileAll passes) (initWorld c namespace spec)).2
       = 1
       ∧ bucketRuns (run (reconcileAll passes) (initWorld c namespace spec)).2
         = 1)
  ∧ (∀ w pass,
       watchersActivated (w_cluster w) = true →
       watchersActivated (w_cluster (run (reconcile pass) w).1.2) = true)
  ∧ (∀ w daemon cephUser,
       watchersActivated (w_cluster w) = true →
       watchersActivated
         (w_cluster (run (startMonitoringCheck daemon cephUser) w).1.2)
       = true).
Proof.
  split_and!.
  - reflexivity.
  - intros c namespace spec [|pass passes] Hlen; [simpl in Hlen; lia|].
    unfold reconcileAll. cbn [forRange]. rewrite run_bind.
    destruct (first_pass c namespace spec pass) as (w1 & e1 & -> & Hg & Hcnt).
    destruct (run (forRange passes reconcile) w1) as [[r2 w2] e2] eqn:E2.
    cbn [snd].
    pose proof (preserves_run gateCounts gateCounts_pass passes
                  w1 e1 r2 w2 e2 Hcnt E2) as [Hw Hb].
    pose proof (preserves_run gateSet gateSet_pass passes
                  w1 e1 r2 w2 e2 Hg E2) as Hg2.
    unfold gateSet in Hg2. by rewrite Hw, Hb, Hg2.
  - intros w pass Hg.
    destruct (run (reconcile pass) w) as [[r w'] evs] eqn:E.
    exact (gateSet_pass pass w [] r w' evs Hg E).
  - intros w daemon cephUser Hg. by rewrite startMonitoringCheck_cluster.
Qed.

Lemma activation_gate_one_shot_witness :
  let passes := [(enabledSpec ["mon"], "admin"); (enabledSpec [], "admin");
                 (enabledSpec ["mon"; "osd"], "admin")] in
  0 < length passes
  ∧ watchStarts (run (reconcileAll passes) w0).2 = 1
  ∧ bucketRuns (run (reconcileAll passes) w0).2 = 1.
Proof.
  intros passes.
  assert (Hlen : 0 < length passes) by (simpl; lia).
  split; [exact Hlen|].
  exact (proj1 (proj2 activation_gate_one_shot) aController "rook-ceph"
           (specOf false false false) passes Hlen).
Defined.

(** C6. [isMonitoringDisabled] is a total function of the daemon name and
    the snapshot: for "mon", "osd" and "status" it is the [Disabled] flag of
    the matching health check, and for every other name it is [false]
    (not disabled), whatever the snapshot. *)
Theorem isMonitoringDisabled_resolves (daemon : string) (clusterSpec : ClusterSpec) :
  isMonitoringDisabled "mon" clusterSpec
  = Disabled (Monitor (DaemonHealth (HealthCheck clusterSpec)))
  ∧ isMonitoringDisabled "osd" clusterSpec
    = Disabled (ObjectStorageDaemon (DaemonHealth (HealthCheck clusterSpec)))
  ∧ isMonitoringDisabled "status" clusterSpec
    = Disabled (Status (DaemonHealth (HealthCheck clusterSpec)))
  ∧ (daemon ∉ daemons → isMonitoringDisabled daemon clusterSpec = false).
Proof.
  split_and!; try reflexivity.
  rewrite elem_of_daemons. intros Hd. unfold isMonitoringDisabled.
  do 3 (destruct (decide _); [exfalso; tauto |]). reflexivity.
Qed.

Lemma isMonitoringDisabled_resolves_witness :
  ("mgr" ∉ daemons)
  ∧ isMonitoringDisabled "mgr" (specOf true true true) = false.
Proof.
  assert (H : "mgr" ∉ daemons).
  { apply (bool_decide_unpack _). vm_compute. exact I. }
  split; [exact H |].
  exact (proj2 (proj2 (proj2
           (isMonitoringDisabled_resolves "mgr" (specOf true true true)))) H).
Defined.

(** C7. The scenario of the spec, for any naming A, B, C of the three
    daemons.  On a new cluster a pass with A and C enabled and B disabled
    leaves running records for A and C and none for B.  A second pass with A
    disabled and B, C enabled closes A's stop channel exactly once and stops
    A's record, makes a running record for B and launches B's check on a new
    channel, and leaves C's record as it was, with no launch and no close for
    C. *)
Theorem scenario_three_kinds c namespace spec u1 u2 A B C :
  A ∈ daemons → B ∈ daemons → C ∈ daemons → NoDup [A; B; C] →
  ∃ w1 e1 w2 e2 pA cA pB cB pC cC,
    run (reconcile (enabledSpec [A; C], u1)) (initWorld c namespace spec)
    = (Ret tt, w1, e1)
    ∧ run (reconcile (enabledSpec [B; C], u2)) w1 = (Ret tt, w2, e2)
    (* after the first pass: A and C run, B has no record *)
    ∧ monitoringChannels (w_cluster w1) !! A = Some pA
    ∧ w_health w1 !! pA = Some {| stopChan := cA; monitoringRunning := true |}
    ∧ w_chans w1 !! cA = Some false
    ∧ launches A e1 = [cA]
    ∧ monitoringChannels (w_cluster w1) !! B = None
    ∧ launches B e1 = []
    ∧ monitoringChannels (w_cluster w1) !! C = Some pC
    ∧ w_health w1 !! pC = Some {| stopChan := cC; monitoringRunning := true |}
    ∧ w_chans w1 !! cC = Some false
    ∧ launches C e1 = [cC]
    (* after the second pass: A is stopped by one close *)
    ∧ monitoringChannels (w_cluster w2) !! A = Some pA
    ∧ w_health w2 !! pA = Some {| stopChan := cA; monitoringRunning := false |}
    ∧ w_chans w2 !! cA = Some true
    ∧ closes cA e2 = 1
    ∧ launches A e2 = []
    (* B has a new running record and a launch on a new channel *)
    ∧ monitoringChannels (w_cluster w2) !! B = Some pB
    ∧ w_health w2 !! pB = Some {| stopChan := cB; monitoringRunning := true |}
    ∧ w_chans w2 !! cB = Some false
    ∧ launches B e2 = [cB]
    ∧ w_chans w1 !! cB = None ∧ w_health w1 !! pB = None
    (* C is as it was *)
    ∧ monitoringChannels (w_cluster w2) !! C = Some pC
    ∧ w_health w2 !! pC = Some {| stopChan := cC; monitoringRunning := true |}
    ∧ w_chans w2 !! cC = Some false
    ∧ launches C e2 = []
    ∧ closes cC e2 = 0.
Proof.
  rewrite !elem_of_daemons.
  intros [-> | [-> | ->]] [-> | [-> | ->]] [-> | [-> | ->]] Hnd;
    try (exfalso; revert Hnd; apply (bool_decide_unpack _); vm_compute;
         exact I);
    clear Hnd; eexists _, _, _, _, _, _, _, _, _, _; split_and!; run_eq.
Qed.

Lemma scenario_three_kinds_witness :
  ("osd" ∈ daemons ∧ "status" ∈ daemons ∧ "mon" ∈ daemons
   ∧ NoDup ["osd"; "status"; "mon"])
  ∧ ∃ w1 e1 w2 e2 pA cA pB cB pC cC,
      run (reconcile (enabledSpec ["osd"; "mon"], "admin")) w0
      = (Ret tt, w1, e1)
      ∧ run (reconcile (enabledSpec ["status"; "mon"], "admin")) w1
        = (Ret tt, w2, e2)
      ∧ monitoringChannels (w_cluster w1) !! "osd" = Some pA
      ∧ w_health w1 !! pA
        = Some {| stopChan := cA; monitoringRunning := true |}
      ∧ w_chans w1 !! cA = Some false
      ∧ launches "osd" e1 = [cA]
      ∧ monitoringChannels (w_cluster w1) !! "status" = None
      ∧ launches "status" e1 = []
      ∧ monitoringChannels (w_cluster w1) !! "mon" = Some pC
      ∧ w_health w1 !! pC
        = Some {| stopChan := cC; monitoringRunning := true |}
      ∧ w_chans w1 !! cC = Some false
      ∧ launches "mon" e1 = [cC]
      ∧ monitoringChannels (w_cluster w2) !! "osd" = Some pA
      ∧ w_health w2 !! pA
        = Some {| stopChan := cA; monitoringRunning := false |}
      ∧ w_chans w2 !! cA = Some true
      ∧ closes cA e2 = 1
      ∧ launches "osd" e2 = []
      ∧ monitoringChannels (w_cluster w2) !! "status" = Some pB
      ∧ w_health w2 !! pB
        = Some {| stopChan := cB; monitoringRunning := true |}
      ∧ w_chans w2 !! cB = Some false
      ∧ launches "status" e2 = [cB]
      ∧ w_chans w1 !! cB = None ∧ w_health w1 !! pB = None
      ∧ monitoringChannels (w_cluster w2) !! "mon" = Some pC
      ∧ w_health w2 !! pC
        = Some {| stopChan := cC; monitoringRunning := true |}
      ∧ w_chans w2 !! cC = Some false
      ∧ launches "mon" e2 = []
      ∧ closes cC e2 = 0.
Proof.
  assert (Hin : ∀ d, bool_decide (d ∈ daemons) = true → d ∈ daemons)
    by (intros d; apply bool_decide_eq_true_1).
  assert (Hnd : NoDup ["osd"; "status"; "mon"]).
  { apply (bool_decide_unpack _). vm_compute. exact I. }
  split.
  - exact (conj (Hin "osd" eq_refl)
             (conj (Hin "status" eq_refl) (conj (Hin "mon" eq_refl) Hnd))).
  - exact (scenario_three_kinds aController "rook-ceph"
             (specOf false false false) "admin" "admin"
             "osd" "status" "mon"
             (Hin "osd" eq_refl) (Hin "status" eq_refl) (Hin "mon" eq_refl)
             Hnd).
Defined.

(** C8. In every state reached from a new cluster, however the run ended,
    the registry has a record for a daemon exactly when the passes so far
    launched a health check for it.  A pass never removes a record: the
    daemon keeps its record address and the record keeps its stop channel;
    a pass that returns with the daemon disabled leaves the record with
    [monitoringRunning = false]. *)
Theorem record_iff_launched c namespace spec passes r w tr :
  run (reconcileAll passes) (initWorld c namespace spec) = (r, w, tr) →
  (∀ daemon,
     is_Some (monitoringChannels (w_cluster w) !! daemon)
     ↔ launches daemon tr ≠ [])
  ∧ (∀ pass daemon p h,
       monitoringChannels (w_cluster w) !! daemon = Some p →
       w_health w !! p = Some h →
       let w' := (run (reconcile pass) w).1.2 in
       monitoringChannels (w_cluster w') !! daemon = Some p
       ∧ ∃ h', w_health w' !! p = Some h' ∧ stopChan h' = stopChan h)
  ∧ (∀ pass daemon p h w' evs,
       daemon ∈ daemons →
       isMonitoringDisabled daemon pass.1 = true →
       monitoringChannels (w_cluster w) !! daemon = Some p →
       w_health w !! p = Some h →
       run (reconcile pass) w = (Ret tt, w', evs) →
       monitoringChannels (w_cluster w') !! daemon = Some p
       ∧ w_health w' !! p
         = Some {| stopChan := stopChan h; monitoringRunning := false |}).
Proof.
  intros E. pose proof (consistent_run _ _ _ _ _ _ _ E) as Hc.
  assert (Hkept : ∀ pass daemon p h,
            monitoringChannels (w_cluster w) !! daemon = Some p →
            w_health w !! p = Some h →
            recordKept daemon p (stopChan h) (run (reconcile pass) w).1.2 []).
  { intros pass daemon p h Hp Hh.
    destruct (run (reconcile pass) w) as [[r' w'] evs] eqn:E'.
    pose proof (recordKept_pass daemon p (stopChan h) pass w [] r' w' evs)
      as Hk.
    cbn [fst snd]. unfold recordKept in *. apply Hk; eauto. }
  split_and!.
  - intros daemon. destruct (cons_phase _ _ Hc daemon) as (ph & Ht & Ha).
    split.
    + intros [p Hp] Hl.
      pose proof (track_no_launch _ _ _ _ Hl Ht) as Hph. simpl in Hph.
      subst ph. simpl in Ha. congruence.
    + intros Hl. destruct ph.
      * destruct (track_Absent _ _ _ Ht) as [_ Hn]. done.
      * destruct Ha as (p & -> & _). eauto.
      * destruct Ha as (p & -> & _). eauto.
      * destruct Ha as (p & -> & _). eauto.
  - intros pass daemon p h Hp Hh. apply (Hkept pass daemon p h Hp Hh).
  - intros pass daemon p h w' evs Hin Hd Hp Hh E'.
    pose proof (Hkept pass daemon p h Hp Hh) as (Hp' & h' & Hh' & Hs).
    rewrite E' in Hp', Hh'. cbn [fst snd] in Hp', Hh'.
    split; [done|].
    destruct (pass_settles _ _ _ _ _ Hc E') as (Hset & _ & Hspec).
    specialize (Hset daemon Hin). unfold settled in Hset.
    rewrite Hp', Hspec, Hd in Hset. destruct Hset as (h2 & Hh2 & Hrun).
    simplify_eq. destruct h'; simpl in *. by subst.
Qed.

Lemma record_iff_launched_witness :
  let passes := [(enabledSpec ["mon"], "admin")] in
  let w := (run (reconcileAll passes) w0).1.2 in
  let tr := (run (reconcileAll passes) w0).2 in
  let w' := (run (reconcile (enabledSpec [], "admin")) w).1.2 in
  run (reconcileAll passes) w0 = (Ret tt, w, tr)
  ∧ (is_Some (monitoringChannels (w_cluster w) !! "mon")
     ↔ launches "mon" tr ≠ [])
  ∧ (is_Some (monitoringChannels (w_cluster w) !! "osd")
     ↔ launches "osd" tr ≠ [])
  ∧ monitoringChannels (w_cluster w') !! "mon" = Some 0
  ∧ w_health w' !! 0 = Some {| stopChan := 1; monitoringRunning := false |}.
Proof.
  intros passes w tr w'.
  assert (E : run (reconcileAll passes) w0 = (Ret tt, w, tr))
    by (vm_compute; reflexivity).
  destruct (record_iff_launched aController "rook-ceph"
              (specOf false false false) passes (Ret tt) w tr E)
    as (Hiff & _ & Hoff).
  split; [exact E|]. split; [apply Hiff|]. split; [apply Hiff|].
  apply (Hoff (enabledSpec [], "admin") "mon" 0
           {| stopChan := 1; monitoringRunning := true |} w'
           (run (reconcile (enabledSpec [], "admin")) w).2).
  - apply (bool_decide_unpack _). vm_compute. exact I.
  - reflexivity.
  - vm_compute. reflexivity.
  - vm_compute. reflexivity.
  - vm_compute. reflexivity.
Defined.

(** C9. In every run from a new cluster, however it ends, each daemon has at
    most one active health check at any time: in every prefix of the trace at
    most one launch of the daemon has a stop channel that was not closed
    afterwards.  And between two consecutive launches for the same daemon
    the stop channel given to the first one was closed exactly once. *)
Theorem at_most_one_active_task c namespace spec passes daemon :
  let tr := (run (reconcileAll passes) (initWorld c namespace spec)).2 in
  (∀ t rest, tr = t ++ rest → active daemon t ≤ 1)
  ∧ (∀ t1 g1 t2 g2 t3,
       tr = t1 ++ EvGo g1 :: t2 ++ EvGo g2 :: t3 →
       goroutineDaemon g1 = Some daemon → goroutineDaemon g2 = Some daemon →
       launches daemon t2 = [] →
       closes (goroutineStop g1) t2 = 1).
Proof.
  destruct (run (reconcileAll passes) (initWorld c namespace spec))
    as [[r w] tr] eqn:E. cbn [snd].
  pose proof (consistent_run _ _ _ _ _ _ _ E) as Hc.
  destruct (cons_phase _ _ Hc daemon) as (ph & Ht & _).
  split.
  - intros t rest ->. apply track_prefix in Ht as (ph1 & Ht & _).
    apply (track_active _ _ _ _ Ht).
  - intros t1 g1 t2 g2 t3 ->. by eapply track_between.
Qed.

Lemma at_most_one_active_task_witness :
  let passes := [(enabledSpec ["mon"], "admin"); (enabledSpec [], "admin");
                 (enabledSpec ["mon"], "admin")] in
  let tr := (run (reconcileAll passes) w0).2 in
  let g := HealthChecker_Check (NewHealthChecker 0 (enabledSpec ["mon"])) 1 in
  let t1 := [EvInfof enablingFormat ["mon"; "rook-ceph"]] in
  let t2 :=
    [EvStartWatch (NewClientController (context aController) "rook-ceph") 0;
     EvGo (BucketController_Run
             (NewBucketController 0
                (NewProvisioner (context aController) "rook-ceph" "admin")) 0);
     EvClose 1;
     EvDebugf watchedFormat ["rook-ceph"];
     EvInfof enablingFormat ["mon"; "rook-ceph"]] in
  let t3 := [EvDebugf watchedFormat ["rook-ceph"]] in
  (tr = t1 ++ EvGo g :: t2 ++ EvGo g :: t3
   ∧ goroutineDaemon g = Some "mon" ∧ launches "mon" t2 = [])
  ∧ closes (goroutineStop g) t2 = 1
  ∧ active "mon" tr ≤ 1.
Proof.
  intros passes tr g t1 t2 t3.
  assert (Htr : tr = t1 ++ EvGo g :: t2 ++ EvGo g :: t3)
    by (vm_compute; reflexivity).
  assert (Hg : goroutineDaemon g = Some "mon") by reflexivity.
  assert (Hl : launches "mon" t2 = []) by (vm_compute; reflexivity).
  destruct (at_most_one_active_task aController "rook-ceph"
              (specOf false false false) passes "mon") as [Hact Hbetween].
  split; [by repeat split|]. split.
  - exact (Hbetween t1 g t2 g t3 Htr Hg Hg Hl).
  - apply (Hact tr []). by rewrite app_nil_r.
Defined.

(** C10. For a daemon name outside "mon", "osd", "status",
    [startMonitoringCheck] returns without a panic, spawns no goroutine, logs
    nothing and leaves the whole world (registry, records, channels,
    controller) as it was. *)
Theorem startMonitoringCheck_unknown_noop daemon cephUser w :
  daemon ∉ daemons →
  run (startMonitoringCheck daemon cephUser) w = (Ret tt, w, []).
Proof.
  intros Hd. rewrite elem_of_daemons in Hd.
  unfold startMonitoringCheck. unfold_ops.
  do 3 (destruct (decide _); [exfalso; tauto |]). reflexivity.
Qed.

Lemma startMonitoringCheck_unknown_noop_witness :
  ("mgr" ∉ daemons)
  ∧ run (startMonitoringCheck "mgr" "admin") w0 = (Ret tt, w0, []).
Proof.
  assert (H : "mgr" ∉ daemons).
  { apply (bool_decide_unpack _). vm_compute. exact I. }
  split; [exact H |].
  exact (startMonitoringCheck_unknown_noop "mgr" "admin" w0 H).
Defined.

(** ** Further properties of the supervisor *)

(* lemmas *)
Lemma agrees_unique w d ph1 ph2 : agrees w d ph1 → agrees w d ph2 → ph1 = ph2.
Proof.
  intros H1 H2. destruct ph1 as [|c1|c1|c1]; simpl in H1.
  - symmetry. by eapply agrees_absent.
  - destruct H1 as (p & Hp & Hh & Hc).
    pose proof (agrees_record _ _ _ _ _ H2 Hp Hh) as H. simpl in H.
    by rewrite Hc in H.
  - destruct H1 as (p & Hp & Hh & Hc).
    pose proof (agrees_record _ _ _ _ _ H2 Hp Hh) as H. simpl in H.
    by rewrite Hc in H.
  - destruct H1 as (p & Hp & Hh & Hc).
    pose proof (agrees_record _ _ _ _ _ H2 Hp Hh) as H. simpl in H.
    by rewrite Hc in H.
Qed.

Lemma launches_app d tr evs :
  launches d (tr ++ evs) = launches d tr ++ launches d evs.
Proof. unfold launches. apply omap_app. Qed.

Lemma closes_app c tr evs : closes c (tr ++ evs) = closes c tr + closes c evs.
Proof. unfold closes. by rewrite filter_app, length_app. Qed.

Lemma track_launches d tr : ∀ ph ph',
  track d ph tr = Some ph' →
  phaseLaunches ph ++ launches d tr = phaseLaunches ph'.
Proof.
  induction tr as [|e tr IH]; intros ph ph'.
  - intros [= <-]. apply app_nil_r.
  - cbn [track]. rewrite launches_cons. unfold track1.
    destruct (launchOf d e) as [c'|] eqn:El.
    + destruct ph as [|c|c|c]; cbn [mbind option_bind]; try done.
      * intros H. apply IH in H. by rewrite <- H.
      * case_decide as Hcc; [subst c'|done]. simpl. intros H.
        apply IH in H. by rewrite <- H.
    + destruct ph as [|c|c|c]; cbn [mbind option_bind].
      * intros H. by apply IH in H.
      * destruct (isClose c e); simpl; intros H; by apply IH in H.
      * destruct (isClose c e); simpl; intros H; [done|]. by apply IH in H.
      * destruct (isClose c e); simpl; intros H; [done|]. by apply IH in H.
Qed.

(** The phase of another daemon survives a step. *)
Lemma phase_frame cephUser daemon d w tr r w' evs ph :
  consistent w tr → daemon ∈ daemons → d ≠ daemon →
  run (configureDaemon cephUser daemon) w = (r, w', evs) →
  agrees w d ph → agrees w' d ph ∧ track d ph evs = Some ph.
Proof.
  intros Hc Hin Hne E Ha.
  pose proof (consistent_daemon cephUser daemon Hin w tr r w' evs Hc E) as Hc'.
  destruct (cons_phase _ _ Hc d) as (ph0 & Ht & Ha0).
  rewrite (agrees_unique _ _ _ _ Ha Ha0) in *. clear Ha.
  destruct (cons_phase _ _ Hc' d) as (ph1 & Ht1 & Ha1).
  rewrite (track_snoc _ _ _ _ _ Ht) in Ht1.
  assert (Hsame : track d ph0 evs = Some ph0).
  { pose proof (configureDaemon_transition cephUser daemon w Hin) as T.
    rewrite E in T. inversion T; subst; try (by destruct ph0).
    - by apply track_launch_other.
    - apply track_close_other. eapply (consistent_other_chan w tr daemon d); eauto.
    - by apply track_launch_other. }
  rewrite Hsame in Ht1. injection Ht1 as <-. done.
Qed.

Lemma step_doomed cephUser daemon w :
  doomed w daemon →
  run (configureDaemon cephUser daemon) w = (Panic doubleClose, w, []).
Proof.
  intros (Hd & c & p & Hp & Hh & Hc).
  by eapply (running_disabled_closed cephUser daemon w p
               {| stopChan := c; monitoringRunning := true |}).
Qed.

(** In a consistent world a step returns or panics in [close]. *)
Lemma step_outcome cephUser daemon w tr :
  consistent w tr → daemon ∈ daemons →
  (doomed w daemon
   ∧ run (configureDaemon cephUser daemon) w = (Panic doubleClose, w, []))
  ∨ (¬ doomed w daemon
     ∧ ∃ w' evs, run (configureDaemon cephUser daemon) w = (Ret tt, w', evs)).
Proof.
  intros Hc Hin.
  pose proof (configureDaemon_transition cephUser daemon w Hin) as T.
  destruct (cons_phase _ _ Hc daemon) as (ph & _ & Ha).
  assert (Hnot : ∀ p h, monitoringChannels (w_cluster w) !! daemon = Some p →
            w_health w !! p = Some h →
            (isMonitoringDisabled daemon (Spec (w_cluster w)) = false
             ∨ monitoringRunning h = false
             ∨ w_chans w !! stopChan h = Some false) →
            ¬ doomed w daemon).
  { intros p h Hp Hh Hor (Hd & c & p' & Hp' & Hh' & Hc').
    simplify_eq. simpl in Hor. destruct Hor as [?|[?|?]]; congruence. }
  inversion T as [Hr Hd | stop health w' Hr Hd | health h Hr Hh Hrun Hd
                 | health h Hr Hh Hrun Hd Hch | health h Hr Hh Hrun Hd Hch
                 | health h Hr Hh Hrun Hd Hch | health h Hr Hh Hrun Hd
                 | health h Hr Hh Hrun Hd | health Hr Hh]; subst.
  - right. split; [|eauto]. intros (_ & c & p & Hp & _). congruence.
  - right. split; [|eauto]. intros (_ & c & p & Hp & _). congruence.
  - right. split; [|eauto]. eapply Hnot; eauto.
  - right. split; [|eauto]. eapply Hnot; eauto.
  - left. split; [|done]. split; [done|]. exists (stopChan h), health.
    destruct h as [c r]; simpl in *. by subst.
  - destruct (consistent_alloc _ _ _ _ Hc Hr) as (h' & Hh' & [b Hb]).
    simplify_eq.
  - right. split; [|eauto]. eapply Hnot; eauto.
  - right. split; [|eauto]. eapply Hnot; eauto.
  - destruct (consistent_alloc _ _ _ _ Hc Hr) as (h' & Hh' & _). congruence.
Qed.

Lemma step_spec cephUser daemon w r w' evs :
  daemon ∈ daemons →
  run (configureDaemon cephUser daemon) w = (r, w', evs) →
  Spec (w_cluster w') = Spec (w_cluster w).
Proof.
  intros Hin E.
  pose proof (configureDaemon_transition cephUser daemon w Hin) as T.
  rewrite E in T. by apply transition_frame in T as (_ & -> & _).
Qed.

Lemma doomed_frame cephUser daemon d w tr w' evs :
  consistent w tr → daemon ∈ daemons → d ≠ daemon →
  run (configureDaemon cephUser daemon) w = (Ret tt, w', evs) →
  doomed w' d ↔ doomed w d.
Proof.
  intros Hc Hin Hne E. unfold doomed.
  rewrite (step_spec _ _ _ _ _ _ Hin E).
  split; intros (Hd & c & Ha); (split; [done|]); exists c.
  - destruct (cons_phase _ _ Hc d) as (ph & _ & Ha0).
    destruct (phase_frame _ _ _ _ _ _ _ _ _ Hc Hin Hne E Ha0) as [Ha1 _].
    by rewrite (agrees_unique _ _ _ _ Ha Ha1).
  - by destruct (phase_frame _ _ _ _ _ _ _ _ _ Hc Hin Hne E Ha).
Qed.

Lemma loop_outcome cephUser l : ∀ w tr,
  l ⊆ daemons → NoDup l → consistent w tr →
  ((∃ d, d ∈ l ∧ doomed w d) →
   (run (forRange l (configureDaemon cephUser)) w).1.1 = Panic doubleClose)
  ∧ ((∀ d, d ∈ l → ¬ doomed w d) →
     (run (forRange l (configureDaemon cephUser)) w).1.1 = Ret tt).
Proof.
  induction l as [|x l IH]; intros w tr Hsub Hnd Hc.
  - split; [|done]. intros (d & Hd & _). by apply elem_of_nil in Hd.
  - assert (Hx : x ∈ daemons) by (apply Hsub; by left).
    assert (Hsub' : l ⊆ daemons) by (intros y Hy; apply Hsub; by right).
    apply NoDup_cons in Hnd as [Hxl Hnd].
    cbn [forRange]. rewrite run_bind.
    destruct (step_outcome cephUser x w tr Hc Hx)
      as [[Hdoom ->] | [Hnot (w1 & e1 & E1)]].
    + split; [done|]. intros Hall. destruct (Hall x); [by left | done].
    + rewrite E1.
      pose proof (consistent_daemon cephUser x Hx w tr _ _ _ Hc E1) as Hc1.
      destruct (IH w1 (tr ++ e1) Hsub' Hnd Hc1) as [IH1 IH2].
      assert (Hfr : ∀ d, d ∈ l → doomed w1 d ↔ doomed w d).
      { intros d Hd. eapply doomed_frame; eauto. intros ->. done. }
      destruct (run (forRange l (configureDaemon cephUser)) w1)
        as [[r2 w2] e2] eqn:E2. cbn [fst snd] in *.
      split.
      * intros (d & Hd & Hdoom). apply IH1.
        apply elem_of_cons in Hd as [-> | Hd]; [done|].
        exists d. split; [done|]. by apply Hfr.
      * intros Hall. apply IH2. intros d Hd Hdoom.
        apply (Hall d); [by right|]. by apply Hfr.
Qed.

Lemma pass_result pass w :
  (run (reconcile pass) w).1.1
  = (run (forRange daemons (configureDaemon pass.2))
       (withCluster (withSpec pass.1 (w_cluster w)) w)).1.1.
Proof.
  rewrite reconcile_run, configureCephMonitoring_run.
  destruct (run (forRange daemons (configureDaemon pass.2)) _)
    as [[[[]|msg] w1] e1]; [|done].
  by destruct (watchersActivated (w_cluster w1)).
Qed.

Lemma consistent_withSpec w tr spec :
  consistent w tr → consistent (withCluster (withSpec spec (w_cluster w)) w) tr.
Proof.
  intros Hc. split; [| apply (cons_ptr _ _ Hc) | apply (cons_chan _ _ Hc)].
  intros d. destruct (cons_phase _ _ Hc d) as (ph & Ht & Ha).
  exists ph. split; [done|]. by eapply agrees_frame.
Qed.

Lemma relaunched_launches w tr d :
  consistent w tr →
  (∃ c, agrees w d (Relaunched c)) ↔ length (launches d tr) = 2.
Proof.
  intros Hc. destruct (cons_phase _ _ Hc d) as (ph & Ht & Ha).
  pose proof (track_launches _ _ _ _ Ht) as Hl. simpl in Hl. rewrite Hl.
  split.
  - intros (c & Ha'). by rewrite (agrees_unique _ _ _ _ Ha Ha').
  - destruct ph; simpl; try done. eauto.
Qed.

(** X1. The crash condition.  In a state reached from a new cluster by
    returned passes, a pass panics with "close of closed channel" if its
    snapshot disables a daemon that has been launched twice so far, and
    returns if it disables no such daemon. *)
Theorem pass_panics_iff c namespace spec passes w tr pass :
  run (reconcileAll passes) (initWorld c namespace spec) = (Ret tt, w, tr) →
  ((∃ d, d ∈ daemons ∧ isMonitoringDisabled d pass.1 = true
         ∧ length (launches d tr) = 2) →
   (run (reconcile pass) w).1.1 = Panic "close of closed channel")
  ∧ ((∀ d, d ∈ daemons → isMonitoringDisabled d pass.1 = true →
           length (launches d tr) ≠ 2) →
     (run (reconcile pass) w).1.1 = Ret tt).
Proof.
  intros E. pose proof (consistent_run _ _ _ _ _ _ _ E) as Hc.
  pose proof (consistent_withSpec w tr pass.1 Hc) as Hcs.
  rewrite pass_result.
  destruct (loop_outcome pass.2 daemons _ tr (reflexivity _) NoDup_daemons Hcs)
    as [H1 H2].
  split.
  - intros (d & Hin & Hd & Hl). apply H1. exists d. split; [done|].
    split; [done|]. apply (relaunched_launches _ _ _ Hcs). done.
  - intros Hall. apply H2. intros d Hin (Hd & Hre).
    apply (Hall d Hin Hd). by apply (relaunched_launches _ _ _ Hcs).
Qed.

Lemma pass_panics_iff_witness :
  let passes := [(enabledSpec ["mon"], "admin"); (enabledSpec [], "admin");
                 (enabledSpec ["mon"], "admin")] in
  let w := (run (reconcileAll passes) w0).1.2 in
  let tr := (run (reconcileAll passes) w0).2 in
  run (reconcileAll passes) w0 = (Ret tt, w, tr)
  ∧ length (launches "mon" tr) = 2
  ∧ (run (reconcile (enabledSpec [], "admin")) w).1.1
    = Panic "close of closed channel"
  ∧ (run (reconcile (enabledSpec ["mon"], "admin")) w).1.1 = Ret tt.
Proof.
  intros passes w tr.
  assert (E : run (reconcileAll passes) w0 = (Ret tt, w, tr))
    by (vm_compute; reflexivity).
  assert (Hmon : "mon" ∈ daemons).
  { apply (bool_decide_unpack _). vm_compute. exact I. }
  split; [exact E|]. split; [vm_compute; reflexivity|]. split.
  - apply (proj1 (pass_panics_iff aController "rook-ceph"
             (specOf false false false) passes w tr
             (enabledSpec [], "admin") E)).
    exists "mon". split; [exact Hmon|]. split; vm_compute; reflexivity.
  - apply (proj2 (pass_panics_iff aController "rook-ceph"
             (specOf false false false) passes w tr
             (enabledSpec ["mon"], "admin") E)).
    intros d Hd. apply elem_of_daemons in Hd.
    destruct Hd as [-> | [-> | ->]]; vm_compute; intros; discriminate.
Defined.

Lemma loop_result cephUser l : ∀ w tr,
  l ⊆ daemons → consistent w tr →
  (run (forRange l (configureDaemon cephUser)) w).1.1 = Ret tt
  ∨ (run (forRange l (configureDaemon cephUser)) w).1.1 = Panic doubleClose.
Proof.
  induction l as [|x l IH]; intros w tr Hsub Hc; [by left|].
  assert (Hx : x ∈ daemons) by (apply Hsub; by left).
  assert (Hsub' : l ⊆ daemons) by (intros y Hy; apply Hsub; by right).
  cbn [forRange]. rewrite run_bind.
  destruct (step_outcome cephUser x w tr Hc Hx)
    as [[_ ->] | [_ (w1 & e1 & E1)]]; [by right|].
  rewrite E1.
  pose proof (consistent_daemon cephUser x Hx w tr _ _ _ Hc E1) as Hc1.
  destruct (IH w1 (tr ++ e1) Hsub' Hc1) as [H | H];
    destruct (run (forRange l (configureDaemon cephUser)) w1)
      as [[r2 w2] e2]; cbn [fst snd] in *; auto.
Qed.

Lemma run_result passes : ∀ w tr,
  consistent w tr →
  (run (reconcileAll passes) w).1.1 = Ret tt
  ∨ (run (reconcileAll passes) w).1.1 = Panic doubleClose.
Proof.
  induction passes as [|pass passes IH]; intros w tr Hc; [by left|].
  unfold reconcileAll in *. cbn [forRange]. rewrite run_bind.
  pose proof (pass_result pass w) as Hr.
  destruct (loop_result pass.2 daemons _ tr (reflexivity _)
              (consistent_withSpec w tr pass.1 Hc)) as [H | H];
    rewrite H in Hr;
    destruct (run (reconcile pass) w) as [[r1 w1] e1] eqn:E1;
    cbn [fst snd] in Hr; subst r1; [|by right].
  pose proof (consistent_pass pass w tr _ _ _ Hc E1) as Hc1.
  destruct (IH w1 (tr ++ e1) Hc1) as [H' | H'];
    destruct (run (forRange passes reconcile) w1) as [[r2 w2] e2];
    cbn [fst snd] in *; auto.
Qed.

(** X2. A run of passes from a new cluster either returns or panics with
    "close of closed channel": it never dereferences a nil record and never
    closes a nil channel. *)
Theorem only_panic_is_double_close c namespace spec passes :
  (run (reconcileAll passes) (initWorld c namespace spec)).1.1 = Ret tt
  ∨ (run (reconcileAll passes) (initWorld c namespace spec)).1.1
    = Panic "close of closed channel".
Proof. apply (run_result passes _ []). apply consistent_init. Qed.

(** *** Closes invariant *)


Lemma closes_close c c' :
  closes c [EvClose c'] = if decide (c' = c) then 1 else 0.
Proof.
  rewrite closes_cons. simpl. unfold closes. simpl.
  case_bool_decide; case_decide; done.
Qed.



(** *** The cluster's own stop channel *)

Lemma launches_launchTrace daemon d cephUser w stop :
  daemon ∈ daemons →
  launches d (launchTrace daemon cephUser w stop)
  = if decide (daemon = d) then [stop] else [].
Proof.
  intros Hin. unfold launches, launchTrace. simpl.
  destruct (goroutineDaemon_checkerOf daemon cephUser (w_cluster w)
              (w_controller w) stop Hin) as [-> ->].
  case_decide as H1; case_decide as H2; congruence.
Qed.

Lemma watcherStop_launchTrace daemon cephUser w stop e :
  daemon ∈ daemons → e ∈ launchTrace daemon cephUser w stop →
  watcherStop e = None.
Proof.
  intros Hin. unfold launchTrace. rewrite !elem_of_cons, elem_of_nil.
  intros [-> | [-> | []]]; [done|].
  apply elem_of_daemons in Hin. unfold checkerOf.
  destruct Hin as [-> | [-> | ->]]; by repeat case_decide.
Qed.

Lemma stopChApart_daemon cephUser daemon :
  daemon ∈ daemons → preserves stopChApart (configureDaemon cephUser daemon).
Proof.
  intros Hin w tr r w' evs (Hopen & Hcl & Hrec & Hl & Hw) E.
  pose proof (configureDaemon_transition cephUser daemon w Hin) as T.
  rewrite E in T. unfold stopChApart.
  inversion T as [Hr Hd | stop health w1 Hr Hd Hs Hh Hw1
                 | health h Hr Hh Hrun Hd
                 | health h Hr Hh Hrun Hd Hch | health h Hr Hh Hrun Hd Hch
                 | health h Hr Hh Hrun Hd Hch | health h Hr Hh Hrun Hd
                 | health h Hr Hh Hrun Hd | health Hr Hh]; subst;
    rewrite ?app_nil_r; try done.
  - (* a new record *)
    set (stop := fresh (dom (w_chans w))).
    assert (Hne : stop ≠ stopCh (w_cluster w)).
    { intros Heq. pose proof (is_fresh (dom (w_chans w))) as Hf.
      fold stop in Hf. rewrite Heq in Hf. apply Hf. apply elem_of_dom. eauto. }
    rewrite started_cluster, started_chans, started_health. simpl.
    split_and!.
    + by rewrite lookup_insert_ne.
    + by rewrite closes_app, Hcl.
    + intros d p h. destruct (decide (d = daemon)) as [-> | Hdd].
      * rewrite lookup_insert_eq. intros [= <-]. rewrite lookup_insert_eq.
        by intros [= <-].
      * rewrite lookup_insert_ne by done. intros Hp.
        destruct (decide (p = fresh (dom (w_health w)))) as [-> | Hpp].
        -- rewrite lookup_insert_eq. by intros [= <-].
        -- rewrite lookup_insert_ne by done. by apply (Hrec d).
    + intros d. rewrite launches_app, launches_launchTrace by done.
      rewrite elem_of_app. intros [H | H]; [by apply (Hl d)|].
      case_decide; [|by apply elem_of_nil in H].
      apply list_elem_of_singleton in H. done.
    + intros e c. rewrite elem_of_app. intros [He | He]; [by apply Hw|].
      by rewrite (watcherStop_launchTrace _ _ _ _ _ Hin He).
  - (* already running *)
    split_and!; try done.
    + by rewrite closes_app, Hcl.
    + intros d. rewrite launches_app. simpl. rewrite app_nil_r. apply Hl.
    + intros e c. rewrite elem_of_app, list_elem_of_singleton.
      intros [He | ->]; [by apply Hw | done].
  - (* stop *)
    simpl. pose proof (Hrec _ _ _ Hr Hh) as Hne.
    split_and!.
    + by rewrite lookup_insert_ne.
    + rewrite closes_app, Hcl, closes_close. by rewrite decide_False.
    + intros d p h'. destruct (decide (p = health)) as [-> | Hpp].
      * rewrite lookup_insert_eq. by intros _ [= <-].
      * rewrite lookup_insert_ne by done. apply (Hrec d).
    + intros d. rewrite launches_app. simpl. rewrite app_nil_r. apply Hl.
    + intros e c. rewrite elem_of_app, list_elem_of_singleton.
      intros [He | ->]; [by apply Hw | done].
  - (* relaunch *)
    simpl. rewrite started_cluster, started_chans, ?started_health.
    pose proof (Hrec _ _ _ Hr Hh) as Hne.
    split_and!; try done.
    + by rewrite closes_app, Hcl.
    + intros d p h'. destruct (decide (p = health)) as [-> | Hpp].
      * rewrite lookup_insert_eq. by intros _ [= <-].
      * rewrite lookup_insert_ne by done. apply (Hrec d).
    + intros d. rewrite launches_app, launches_launchTrace by done.
      rewrite elem_of_app. intros [H | H]; [by apply (Hl d)|].
      case_decide; [|by apply elem_of_nil in H].
      apply list_elem_of_singleton in H. done.
    + intros e c. rewrite elem_of_app. intros [He | He]; [by apply Hw|].
      by rewrite (watcherStop_launchTrace _ _ _ _ _ Hin He).
Qed.

Lemma stopChApart_pass pass : preserves stopChApart (reconcile pass).
Proof.
  apply preserves_pass.
  - intros. by apply stopChApart_daemon.
  - intros w tr spec H. exact H.
  - intros w tr (Hopen & Hcl & Hrec & Hl & Hw) _ e He. destruct e; try done.
    split_and!; try done.
    + by rewrite closes_app, Hcl.
    + intros d. rewrite launches_app. simpl. rewrite app_nil_r. apply Hl.
    + intros e c. rewrite elem_of_app, list_elem_of_singleton.
      intros [H | ->]; [by apply Hw | done].
  - intros w tr cc bc (Hopen & Hcl & Hrec & Hl & Hw) _.
    unfold stopChApart. simpl. split_and!; try done.
    + by rewrite closes_app, Hcl.
    + intros d. rewrite launches_app. simpl. rewrite app_nil_r. apply Hl.
    + intros e c. rewrite elem_of_app, !elem_of_cons, elem_of_nil.
      intros [H | [-> | [-> | []]]]; [by apply Hw | |]; simpl; congruence.
Qed.

(** X4. In a run from a new cluster the cluster's own [stopCh] stays open:
    no pass closes it, no health check is handed it, and it is the stop
    channel of every watcher that was started. *)
Theorem watchers_channel_never_closed c0 namespace spec passes :
  let out := run (reconcileAll passes) (initWorld c0 namespace spec) in
  let stop := stopCh (w_cluster out.1.2) in
  w_chans out.1.2 !! stop = Some false
  ∧ closes stop out.2 = 0
  ∧ (∀ d, stop ∉ launches d out.2)
  ∧ (∀ e c, e ∈ out.2 → watcherStop e = Some c → c = stop).
Proof.
  destruct (run (reconcileAll passes) (initWorld c0 namespace spec))
    as [[r w] tr] eqn:E. cbn [fst snd].
  assert (H : stopChApart w tr).
  { apply (preserves_run stopChApart stopChApart_pass passes
             (initWorld c0 namespace spec) [] r w tr); [|exact E].
    split_and!; try done.
    - intros d. apply not_elem_of_nil.
    - intros e c He. by apply elem_of_nil in He. }
  destruct H as (H1 & H2 & _ & H4 & H5). done.
Qed.

Lemma watchers_channel_never_closed_witness :
  let passes := [(enabledSpec ["mon"], "admin"); (enabledSpec [], "admin")] in
  let out := run (reconcileAll passes) w0 in
  EvStartWatch (NewClientController (context aController) "rook-ceph") 0
  ∈ out.2
  ∧ stopCh (w_cluster out.1.2) = 0
  ∧ 1 ∈ launches "mon" out.2.
Proof.
  intros passes out.
  assert (Hin : EvStartWatch
                  (NewClientController (context aController) "rook-ceph") 0
                ∈ out.2).
  { apply (list_elem_of_lookup_2 _ 2). vm_compute. reflexivity. }
  destruct (watchers_channel_never_closed aController "rook-ceph"
              (specOf false false false) passes) as (_ & _ & _ & Hw).
  split; [exact Hin|]. split.
  - symmetry. exact (Hw _ 0 Hin eq_refl).
  - apply (bool_decide_unpack _). vm_compute. exact I.
Defined.


(** *** Shape of the registry and of the launches *)

Lemma launchOf_daemons d e c : launchOf d e = Some c → d ∈ daemons.
Proof.
  destruct e as [| |g| |]; simpl; try done.
  case_decide as H; [|done]. intros _. apply elem_of_daemons.
  destruct g; simpl in H; simplify_eq; auto.
Qed.

Lemma launches_unknown d tr : d ∉ daemons → launches d tr = [].
Proof.
  intros Hd. induction tr as [|e tr IH]; [done|].
  rewrite launches_cons. destruct (launchOf d e) eqn:E; [|done].
  destruct Hd. by eapply launchOf_daemons.
Qed.

(** X6. In a run from a new cluster the registry only has keys among "mon",
    "osd" and "status", so it never holds more than three records. *)
Theorem registry_keys_are_daemons c0 namespace spec passes :
  let w := (run (reconcileAll passes) (initWorld c0 namespace spec)).1.2 in
  dom (monitoringChannels (w_cluster w)) ⊆ list_to_set daemons
  ∧ size (monitoringChannels (w_cluster w)) ≤ 3.
Proof.
  destruct (run (reconcileAll passes) (initWorld c0 namespace spec))
    as [[r w] tr] eqn:E. cbn [fst snd].
  pose proof (consistent_run _ _ _ _ _ _ _ E) as Hc.
  assert (Hsub : dom (monitoringChannels (w_cluster w))
                 ⊆@{gset string} list_to_set daemons).
  { intros d Hd. apply elem_of_list_to_set.
    destruct (decide (d ∈ daemons)) as [|Hn]; [done|].
    apply elem_of_dom in Hd as [p Hp].
    destruct (cons_phase _ _ Hc d) as (ph & Ht & Ha).
    pose proof (track_no_launch _ _ _ _ (launches_unknown d tr Hn) Ht) as Hph.
    simpl in Hph. subst ph. simpl in Ha. congruence. }
  split; [done|].
  rewrite <- size_dom. apply subseteq_size in Hsub.
  etrans; [exact Hsub|]. by vm_compute.
Qed.

(** X5. In a run from a new cluster a daemon without a record was never
    launched, and a daemon with a record was launched once or twice, each
    time on the stop channel that its record holds now: the channel of a
    record is never replaced. *)
Theorem launches_reuse_the_record_channel c0 namespace spec passes d :
  let out := run (reconcileAll passes) (initWorld c0 namespace spec) in
  match monitoringChannels (w_cluster out.1.2) !! d with
  | None => launches d out.2 = []
  | Some p =>
      ∃ h, w_health out.1.2 !! p = Some h
           ∧ (launches d out.2 = [stopChan h]
              ∨ launches d out.2 = [stopChan h; stopChan h])
  end.
Proof.
  destruct (run (reconcileAll passes) (initWorld c0 namespace spec))
    as [[r w] tr] eqn:E. cbn [fst snd].
  pose proof (consistent_run _ _ _ _ _ _ _ E) as Hc.
  destruct (cons_phase _ _ Hc d) as (ph & Ht & Ha).
  pose proof (track_launches _ _ _ _ Ht) as Hl. simpl in Hl. rewrite Hl.
  destruct ph; simpl in Ha.
  - by rewrite Ha.
  - destruct Ha as (p & -> & Hh & _). eexists; split; [done|]. by left.
  - destruct Ha as (p & -> & Hh & _). eexists; split; [done|]. by left.
  - destruct Ha as (p & -> & Hh & _). eexists; split; [done|]. by right.
Qed.

(** X7. In a run from a new cluster every key of the registry points to an
    allocated record whose stop channel was made, a record that is not running
    has a closed stop channel, and two daemons never share a record or a stop
    channel. *)
Theorem registry_well_formed c0 namespace spec passes :
  let w := (run (reconcileAll passes) (initWorld c0 namespace spec)).1.2 in
  (∀ d p, monitoringChannels (w_cluster w) !! d = Some p →
     ∃ h, w_health w !! p = Some h
          ∧ is_Some (w_chans w !! stopChan h)
          ∧ (monitoringRunning h = false →
             w_chans w !! stopChan h = Some true))
  ∧ (∀ d d' p p' h h',
       d ≠ d' →
       monitoringChannels (w_cluster w) !! d = Some p →
       monitoringChannels (w_cluster w) !! d' = Some p' →
       w_health w !! p = Some h → w_health w !! p' = Some h' →
       p ≠ p' ∧ stopChan h ≠ stopChan h').
Proof.
  destruct (run (reconcileAll passes) (initWorld c0 namespace spec))
    as [[r w] tr] eqn:E. cbn [fst snd].
  pose proof (consistent_run _ _ _ _ _ _ _ E) as Hc.
  split.
  - intros d p Hp. destruct (cons_phase _ _ Hc d) as (ph & _ & Ha).
    destruct ph; simpl in Ha; [congruence| | |];
      destruct Ha as (p' & Hp' & Hh & Hch); simplify_eq;
      eexists; split_and!; eauto; done.
  - intros d d' p p' h h' Hne Hp Hp' Hh Hh'. split.
    + intros ->. apply Hne. by eapply (cons_ptr _ _ Hc).
    + intros Hs. apply Hne. by eapply (cons_chan _ _ Hc d d' p p' h h').
Qed.

Lemma registry_well_formed_witness :
  let passes := [(enabledSpec ["mon"; "osd"], "admin");
                 (enabledSpec ["osd"], "admin")] in
  let w := (run (reconcileAll passes) w0).1.2 in
  (∃ h, w_health w !! 0 = Some h
        ∧ is_Some (w_chans w !! stopChan h)
        ∧ (monitoringRunning h = false → w_chans w !! stopChan h = Some true))
  ∧ (0 ≠ 1 ∧ 1 ≠ 2).
Proof.
  intros passes w.
  destruct (registry_well_formed aController "rook-ceph"
              (specOf false false false) passes) as [Hrec Hdist].
  split.
  - apply (Hrec "mon" 0). vm_compute. reflexivity.
  - apply (Hdist "mon" "osd" 0 1
             {| stopChan := 1; monitoringRunning := false |}
             {| stopChan := 2; monitoringRunning := true |});
      [discriminate | vm_compute; reflexivity ..].
Defined.

(** X8. After a pass that returned, in a state reached from a new cluster,
    every daemon of the enumeration is as the snapshot asks: an enabled
    daemon has a record that says running, a disabled one has no record or a
    record that says not running. *)
Theorem pass_reaches_the_snapshot c0 namespace spec passes w tr pass w' evs d :
  run (reconcileAll passes) (initWorld c0 namespace spec) = (Ret tt, w, tr) →
  run (reconcile pass) w = (Ret tt, w', evs) →
  d ∈ daemons →
  match monitoringChannels (w_cluster w') !! d with
  | None => isMonitoringDisabled d pass.1 = true
  | Some p =>
      ∃ h, w_health w' !! p = Some h
           ∧ monitoringRunning h = negb (isMonitoringDisabled d pass.1)
  end.
Proof.
  intros E E' Hin. pose proof (consistent_run _ _ _ _ _ _ _ E) as Hc.
  destruct (pass_settles _ _ _ _ _ Hc E') as (Hs & _ & Hspec).
  specialize (Hs d Hin). unfold settled in Hs. by rewrite Hspec in Hs.
Qed.

Lemma pass_reaches_the_snapshot_witness :
  let passes := [(enabledSpec ["mon"], "admin")] in
  let w := (run (reconcileAll passes) w0).1.2 in
  let w' := (run (reconcile (enabledSpec ["osd"], "admin")) w).1.2 in
  run (reconcileAll passes) w0 = (Ret tt, w, (run (reconcileAll passes) w0).2)
  ∧ (∃ h, w_health w' !! 0 = Some h ∧ monitoringRunning h = false)
  ∧ (∃ h, w_health w' !! 1 = Some h ∧ monitoringRunning h = true)
  ∧ monitoringChannels (w_cluster w') !! "status" = None.
Proof.
  intros passes w w'.
  assert (E : run (reconcileAll passes) w0
              = (Ret tt, w, (run (reconcileAll passes) w0).2))
    by (vm_compute; reflexivity).
  assert (E' : run (reconcile (enabledSpec ["osd"], "admin")) w
               = (Ret tt, w',
                  (run (reconcile (enabledSpec ["osd"], "admin")) w).2))
    by (vm_compute; reflexivity).
  assert (Hin : ∀ d, bool_decide (d ∈ daemons) = true → d ∈ daemons)
    by (intros d; apply bool_decide_eq_true_1).
  split; [exact E|]. split_and!.
  - exact (pass_reaches_the_snapshot aController "rook-ceph"
             (specOf false false false) passes w _
             (enabledSpec ["osd"], "admin") w' _ "mon" E E'
             (Hin "mon" eq_refl)).
  - exact (pass_reaches_the_snapshot aController "rook-ceph"
             (specOf false false false) passes w _
             (enabledSpec ["osd"], "admin") w' _ "osd" E E'
             (Hin "osd" eq_refl)).
  - vm_compute. reflexivity.
Defined.

(** *** What one pass emits *)

Lemma step_events cephUser x w d :
  x ∈ daemons →
  let evs := (run (configureDaemon cephUser x) w).2 in
  (d ≠ x → launches d evs = [])
  ∧ length (launches d evs) ≤ 1
  ∧ (launches d evs ≠ [] →
     isMonitoringDisabled x (Spec (w_cluster w)) = false)
  ∧ (∀ c, closes c evs ≠ 0 →
          isMonitoringDisabled x (Spec (w_cluster w)) = true).
Proof.
  intros Hin.
  pose proof (configureDaemon_transition cephUser x w Hin) as T.
  destruct (run (configureDaemon cephUser x) w) as [[r w'] evs]. cbn [snd].
  inversion T; subst; rewrite ?launches_launchTrace by done;
    split_and!; try done; try (simpl; lia);
    try (intros; by rewrite decide_False);
    try (case_decide; simpl; lia).
Qed.

Lemma loop_events cephUser l : ∀ w d,
  NoDup l → l ⊆ daemons →
  let evs := (run (forRange l (configureDaemon cephUser)) w).2 in
  (d ∉ l → launches d evs = [])
  ∧ length (launches d evs) ≤ 1
  ∧ (launches d evs ≠ [] →
     isMonitoringDisabled d (Spec (w_cluster w)) = false)
  ∧ (∀ c, closes c evs ≠ 0 →
          ∃ d', d' ∈ l
                ∧ isMonitoringDisabled d' (Spec (w_cluster w)) = true).
Proof.
  induction l as [|x l IH]; intros w d Hnd Hsub.
  - simpl. split_and!; try done. lia.
  - assert (Hx : x ∈ daemons) by (apply Hsub; by left).
    assert (Hsub' : l ⊆ daemons) by (intros y Hy; apply Hsub; by right).
    apply NoDup_cons in Hnd as [Hxl Hnd].
    cbn [forRange]. rewrite run_bind.
    destruct (step_events cephUser x w d Hx) as (S1 & S2 & S3 & S4).
    destruct (run (configureDaemon cephUser x) w) as [[[[]|msg] w1] e1] eqn:E1;
      cbn [snd] in *.
    + pose proof (step_spec _ _ _ _ _ _ Hx E1) as Hspec.
      destruct (IH w1 d Hnd Hsub') as (L1 & L2 & L3 & L4). rewrite Hspec in *.
      destruct (run (forRange l (configureDaemon cephUser)) w1)
        as [[r2 w2] e2]. cbn [snd] in *.
      rewrite launches_app. split_and!.
      * rewrite not_elem_of_cons. intros [Hdx Hdl].
        by rewrite S1, L1.
      * destruct (decide (d = x)) as [-> | Hdx].
        -- rewrite (L1 Hxl), app_nil_r. done.
        -- by rewrite (S1 Hdx).
      * destruct (decide (d = x)) as [-> | Hdx].
        -- rewrite (L1 Hxl), app_nil_r. done.
        -- by rewrite (S1 Hdx).
      * intros c. rewrite closes_app. intros Hc.
        destruct (decide (closes c e1 = 0)) as [Hz | Hnz].
        -- destruct (L4 c) as (d' & Hd' & Hdis); [lia|].
           exists d'. split; [by right | done].
        -- exists x. split; [by left | by apply (S4 c)].
    + split_and!.
      * rewrite not_elem_of_cons. intros [Hdx _]. by apply S1.
      * done.
      * destruct (decide (d = x)) as [-> | Hdx]; [done|]. by rewrite (S1 Hdx).
      * intros c Hc. exists x. split; [by left | by apply (S4 c)].
Qed.

Lemma pass_events pass w :
  ∃ tail,
    (run (reconcile pass) w).2
    = (run (forRange daemons (configureDaemon pass.2))
         (withCluster (withSpec pass.1 (w_cluster w)) w)).2 ++ tail
    ∧ (∀ d, launches d tail = []) ∧ (∀ c, closes c tail = 0).
Proof.
  rewrite reconcile_run, configureCephMonitoring_run.
  destruct (run (forRange daemons (configureDaemon pass.2)) _)
    as [[[[]|msg] w1] e1].
  - destruct (watchersActivated (w_cluster w1)); eexists; by split.
  - exists []. by rewrite app_nil_r.
Qed.

(** X9. In any world, one pass launches at most one health check per
    daemon, only for daemons of the enumeration that its snapshot enables,
    and closes a channel only if its snapshot disables some daemon. *)
Theorem pass_launches_only_enabled pass w d :
  let evs := (run (reconcile pass) w).2 in
  length (launches d evs) ≤ 1
  ∧ (launches d evs ≠ [] →
     d ∈ daemons ∧ isMonitoringDisabled d pass.1 = false)
  ∧ (∀ c, closes c evs ≠ 0 →
          ∃ d', d' ∈ daemons ∧ isMonitoringDisabled d' pass.1 = true).
Proof.
  destruct (pass_events pass w) as (tail & -> & Hl & Hc).
  destruct (loop_events pass.2 daemons
              (withCluster (withSpec pass.1 (w_cluster w)) w) d
              NoDup_daemons (reflexivity _)) as (L1 & L2 & L3 & L4).
  cbn beta zeta. rewrite launches_app, Hl, app_nil_r.
  split_and!; [done | |].
  - intros Hne. split; [|by apply L3].
    destruct (decide (d ∈ daemons)) as [|Hn]; [done|]. by destruct (Hne (L1 Hn)).
  - intros c. rewrite closes_app, Hc, Nat.add_0_r. apply L4.
Qed.

Lemma pass_launches_only_enabled_witness :
  let passes := [(enabledSpec ["mon"; "osd"], "admin")] in
  let w := (run (reconcileAll passes) w0).1.2 in
  let evs := (run (reconcile (enabledSpec ["osd"; "status"], "admin")) w).2 in
  launches "status" evs = [3]
  ∧ ("status" ∈ daemons
     ∧ isMonitoringDisabled "status" (enabledSpec ["osd"; "status"]) = false)
  ∧ closes 1 evs = 1
  ∧ ∃ d', d' ∈ daemons
          ∧ isMonitoringDisabled d' (enabledSpec ["osd"; "status"]) = true.
Proof.
  intros passes w evs.
  destruct (pass_launches_only_enabled
              (enabledSpec ["osd"; "status"], "admin") w "status")
    as (_ & Hen & _).
  destruct (pass_launches_only_enabled
              (enabledSpec ["osd"; "status"], "admin") w "mon")
    as (_ & _ & Hcl).
  split; [vm_compute; reflexivity|]. split.
  - apply Hen. vm_compute. discriminate.
  - split; [vm_compute; reflexivity|]. apply (Hcl 1). vm_compute. discriminate.
Defined.

(** X10. In any world, a pass that panics has started no watcher and has
    left the activation gate as it was: the watchers are only started after
    the loop over the daemons has returned. *)
Theorem panicking_pass_starts_no_watcher pass w msg w' evs :
  run (reconcile pass) w = (Panic msg, w', evs) →
  watchersActivated (w_cluster w') = watchersActivated (w_cluster w)
  ∧ watchStarts evs = 0 ∧ bucketRuns evs = 0.
Proof.
  rewrite reconcile_run, configureCephMonitoring_run.
  destruct (run (forRange daemons (configureDaemon pass.2)) _)
    as [[[[]|msg1] w1] e1] eqn:E.
  - by destruct (watchersActivated (w_cluster w1)).
  - intros [= <- <- <-].
    set (I := λ (w0 : world) (tr : list event),
           watchersActivated (w_cluster w0) = watchersActivated (w_cluster w)
           ∧ watchStarts tr = 0 ∧ bucketRuns tr = 0).
    assert (Hbody : ∀ d, d ∈ daemons →
              preserves I (configureDaemon pass.2 d)).
    { intros d Hd w0 tr r0 w0' evs0 (H1 & H2 & H3) E0.
      pose proof (configureDaemon_transition pass.2 d w0 Hd) as T.
      rewrite E0 in T.
      apply transition_frame in T as (Hg & _ & _ & _ & Hw & Hb).
      unfold I. by rewrite watchStarts_app, bucketRuns_app, Hg, Hw, Hb, H2, H3. }
    apply (preserves_forRange I daemons _ Hbody
             (withCluster (withSpec pass.1 (w_cluster w)) w) [] _ _ _
             (conj eq_refl (conj eq_refl eq_refl)) E).
Qed.

Lemma panicking_pass_starts_no_watcher_witness :
  let passes := [(enabledSpec ["mon"], "admin"); (enabledSpec [], "admin");
                 (enabledSpec ["mon"], "admin")] in
  let w := (run (reconcileAll passes) w0).1.2 in
  let out := run (reconcile (enabledSpec ["osd"], "admin")) w in
  out.1.1 = Panic "close of closed channel"
  ∧ watchersActivated (w_cluster out.1.2) = watchersActivated (w_cluster w)
  ∧ watchStarts out.2 = 0 ∧ bucketRuns out.2 = 0.
Proof.
  intros passes w out.
  assert (E : run (reconcile (enabledSpec ["osd"], "admin")) w
              = (Panic "close of closed channel", out.1.2, out.2))
    by (vm_compute; reflexivity).
  split; [vm_compute; reflexivity|].
  exact (panicking_pass_starts_no_watcher (enabledSpec ["osd"], "admin") w
           "close of closed channel" out.1.2 out.2 E).
Defined.

(** X11. [startMonitoringCheck] for "mon", "osd" or "status" without a record
    in the registry panics with a nil dereference when it reads the stop
    channel: by then it has logged the "enabling" line (and for "osd" has
    written [c.osdChecker]), and no goroutine is spawned. *)
Theorem startMonitoringCheck_missing_record daemon cephUser w :
  daemon ∈ daemons →
  monitoringChannels (w_cluster w) !! daemon = None →
  run (startMonitoringCheck daemon cephUser) w
  = (Panic nilDeref, started daemon w,
     [EvInfof enablingFormat [daemon; Namespace (w_cluster w)]]).
Proof.
  intros Hd Hp. apply elem_of_daemons in Hd.
  unfold startMonitoringCheck, started. unfold_ops.
  destruct Hd as [-> | [-> | ->]]; simpl; rewrite Hp; reflexivity.
Qed.

Lemma startMonitoringCheck_missing_record_witness :
  ("osd" ∈ daemons)
  ∧ monitoringChannels (w_cluster w0) !! "osd" = None
  ∧ run (startMonitoringCheck "osd" "admin") w0
    = (Panic nilDeref, started "osd" w0,
       [EvInfof enablingFormat ["osd"; "rook-ceph"]]).
Proof.
  assert (Hin : "osd" ∈ daemons).
  { apply (bool_decide_unpack _). vm_compute. exact I. }
  split; [exact Hin|]. split; [reflexivity|].
  exact (startMonitoringCheck_missing_record "osd" "admin" w0 Hin eq_refl).
Defined.

(** *** The controller *)

Lemma lastOsdMonitor_app tr evs :
  lastOsdMonitor (tr ++ evs)
  = match lastOsdMonitor evs with
    | Some m => Some m
    | None => lastOsdMonitor tr
    end.
Proof. unfold lastOsdMonitor. by rewrite omap_app, last_app. Qed.

Lemma started_tracks c0 daemon cephUser w tr stop :
  daemon ∈ daemons → osdTracked c0 w tr →
  osdTracked c0 (started daemon w) (tr ++ launchTrace daemon cephUser w stop).
Proof.
  intros Hin (Hctx & Hname & Hosd). unfold osdTracked.
  rewrite lastOsdMonitor_app. unfold started, launchTrace, checkerOf.
  apply elem_of_daemons in Hin.
  destruct Hin as [-> | [-> | ->]]; repeat case_decide; try done.
Qed.

Lemma osdTracked_frame c0 w w' tr :
  w_controller w' = w_controller w → osdTracked c0 w tr → osdTracked c0 w' tr.
Proof. unfold osdTracked. by intros ->. Qed.

Lemma osdTracked_pass c0 pass : preserves (osdTracked c0) (reconcile pass).
Proof.
  apply preserves_pass.
  - intros cephUser daemon Hin w tr r w' evs H E.
    pose proof (configureDaemon_transition cephUser daemon w Hin) as T.
    rewrite E in T.
    inversion T; subst; rewrite ?app_nil_r; try done.
    + eapply osdTracked_frame; [|apply started_tracks; [done|]].
      * reflexivity.
      * by eapply osdTracked_frame.
    + destruct H as (? & ? & Ho). split_and!; try done.
      by rewrite lastOsdMonitor_app.
    + destruct H as (? & ? & Ho). split_and!; try done.
      by rewrite lastOsdMonitor_app.
    + eapply (osdTracked_frame _ (started daemon w)); [|by apply started_tracks].
      reflexivity.
  - intros w tr spec H. exact H.
  - intros w tr (? & ? & Ho) _ e He. destruct e; try done.
    split_and!; try done. by rewrite lastOsdMonitor_app.
  - intros w tr cc bc (? & ? & Ho) _.
    split_and!; try done. by rewrite lastOsdMonitor_app.
Qed.

(** X12. In a run from a new cluster [c.osdChecker] is the monitor of the
    latest OSD health check that was launched, or what it was at the start if
    none was; the controller's context and name are never written. *)
Theorem osdChecker_is_latest_monitor c0 namespace spec passes :
  let out := run (reconcileAll passes) (initWorld c0 namespace spec) in
  context (w_controller out.1.2) = context c0
  ∧ namespacedName (w_controller out.1.2) = namespacedName c0
  ∧ osdChecker (w_controller out.1.2)
    = match lastOsdMonitor out.2 with
      | Some m => Some m
      | None => osdChecker c0
      end.
Proof.
  destruct (run (reconcileAll passes) (initWorld c0 namespace spec))
    as [[r w] tr] eqn:E. cbn [fst snd].
  apply (preserves_run (osdTracked c0) (osdTracked_pass c0) passes
           (initWorld c0 namespace spec) [] r w tr); [|exact E].
  by split_and!.
Qed.

(** *** A daemon the snapshot leaves alone *)

Lemma track_debugs d ph evs :
  Forall (λ e, isDebug e = true) evs → track d ph evs = Some ph.
Proof.
  induction 1 as [|e evs He _ IH]; [done|].
  destruct e; try discriminate. cbn [track].
  assert (track1 d ph (EvDebugf format args) = Some ph) as -> by by destruct ph.
  exact IH.
Qed.

Lemma track_quiet d ph evs :
  track d ph evs = Some ph →
  launches d evs = [] ∧ ∀ c, phaseChan ph = Some c → closes c evs = 0.
Proof.
  intros Ht. pose proof (track_launches _ _ _ _ Ht) as Hl.
  assert (Hn : launches d evs = []).
  { apply (f_equal length) in Hl. rewrite length_app in Hl.
    destruct (launches d evs); [done | simpl in Hl; lia]. }
  split; [done|]. intros c Hc.
  pose proof (track_no_launch _ _ _ _ Hn Ht) as H.
  destruct ph; simpl in *; simplify_eq;
    [destruct H as [[_ ?]|[? _]]; done | by destruct H | by destruct H].
Qed.

(** A settled daemon keeps its phase through the loop and sees none of its
    own events. *)
Lemma settled_untouched_loop cephUser l : ∀ w tr r w' evs d ph,
  l ⊆ daemons → consistent w tr → settled w d → agrees w d ph →
  run (forRange l (configureDaemon cephUser)) w = (r, w', evs) →
  agrees w' d ph ∧ track d ph evs = Some ph.
Proof.
  induction l as [|x l IH]; intros w tr r w' evs d ph Hsub Hc Hs Ha.
  - by intros [= <- <- <-].
  - assert (Hx : x ∈ daemons) by (apply Hsub; by left).
    assert (Hsub' : l ⊆ daemons) by (intros y Hy; apply Hsub; by right).
    cbn [forRange]. rewrite run_bind.
    destruct (run (configureDaemon cephUser x) w) as [[r1 w1] e1] eqn:E1.
    assert (H1 : agrees w1 d ph ∧ track d ph e1 = Some ph
                 ∧ (r1 = Ret tt → settled w1 d)).
    { destruct (decide (d = x)) as [-> | Hne].
      - destruct (settled_quiet cephUser x w Hs) as (e & E & Hdbg).
        rewrite E in E1. injection E1 as <- <- <-.
        split_and!; [done | by apply track_debugs | done].
      - destruct (phase_frame _ _ _ _ _ _ _ _ _ Hc Hx Hne E1 Ha) as [Ha1 Ht1].
        split_and!; [done | done |]. intros ->.
        eapply settled_step; eauto. }
    destruct H1 as (Ha1 & Ht1 & Hs1).
    destruct r1 as [[]|msg].
    + pose proof (consistent_daemon cephUser x Hx w tr _ _ _ Hc E1) as Hc1.
      destruct (run (forRange l (configureDaemon cephUser)) w1)
        as [[r2 w2] e2] eqn:E2.
      intros [= <- <- <-].
      destruct (IH w1 (tr ++ e1) r2 w2 e2 d ph Hsub' Hc1 (Hs1 eq_refl) Ha1 E2)
        as [Ha2 Ht2].
      split; [done|]. by rewrite (track_snoc _ _ _ _ _ Ht1).
    + by intros [= <- <- <-].
Qed.

(** X13. In a state reached from a new cluster, a pass leaves alone a daemon
    that already is as the snapshot asks, whatever it does to the others and
    even if it panics: the daemon keeps its registry entry, its record and
    the state of its stop channel, and the pass launches nothing for it and
    does not close its channel. *)
Theorem settled_daemon_untouched c0 namespace spec passes w tr pass d :
  run (reconcileAll passes) (initWorld c0 namespace spec) = (Ret tt, w, tr) →
  settled (withCluster (withSpec pass.1 (w_cluster w)) w) d →
  let out := run (reconcile pass) w in
  monitoringChannels (w_cluster out.1.2) !! d
  = monitoringChannels (w_cluster w) !! d
  ∧ launches d out.2 = []
  ∧ ∀ p h,
      monitoringChannels (w_cluster w) !! d = Some p →
      w_health w !! p = Some h →
      w_health out.1.2 !! p = Some h
      ∧ w_chans out.1.2 !! stopChan h = w_chans w !! stopChan h
      ∧ closes (stopChan h) out.2 = 0.
Proof.
  intros E Hs. pose proof (consistent_run _ _ _ _ _ _ _ E) as Hc.
  pose proof (consistent_withSpec w tr pass.1 Hc) as Hcs.
  destruct (cons_phase _ _ Hcs d) as (ph & _ & Ha).
  assert (H : agrees (run (reconcile pass) w).1.2 d ph
              ∧ track d ph (run (reconcile pass) w).2 = Some ph).
  { rewrite reconcile_run, configureCephMonitoring_run.
    destruct (run (forRange daemons (configureDaemon pass.2)) _)
      as [[r1 w1] e1] eqn:E1.
    destruct (settled_untouched_loop pass.2 daemons _ tr r1 w1 e1 d ph
                (reflexivity _) Hcs Hs Ha E1) as [Ha1 Ht1].
    destruct r1 as [[]|msg]; [|done].
    destruct (watchersActivated (w_cluster w1)); cbn [fst snd];
      rewrite (track_snoc _ _ _ _ _ Ht1).
    - split; [done | apply track_debug].
    - split; [eapply agrees_frame; [exact Ha1 | done..] | apply track_watchers]. }
  destruct H as [Ha' Ht']. cbn zeta.
  destruct (track_quiet _ _ _ Ht') as [Hl Hcl].
  assert (Ha0 : agrees w d ph) by (eapply agrees_frame; [exact Ha | done..]).
  assert (Hkept : ∀ p h,
            monitoringChannels (w_cluster w) !! d = Some p →
            w_health w !! p = Some h →
            monitoringChannels (w_cluster (run (reconcile pass) w).1.2) !! d
            = Some p).
  { intros p h Hp Hh.
    destruct (run (reconcile pass) w) as [[r' w'] evs] eqn:E'.
    by destruct (recordKept_pass d p (stopChan h) pass w [] r' w' evs
                   (conj Hp (ex_intro _ h (conj Hh eq_refl))) E'). }
  assert (Hsame : ∀ p h,
            monitoringChannels (w_cluster w) !! d = Some p →
            w_health w !! p = Some h →
            w_health (run (reconcile pass) w).1.2 !! p = Some h
            ∧ w_chans (run (reconcile pass) w).1.2 !! stopChan h
              = w_chans w !! stopChan h
            ∧ phaseChan ph = Some (stopChan h)).
  { intros p h Hp Hh. pose proof (Hkept p h Hp Hh) as Hp'.
    destruct ph; simpl in Ha0, Ha'; [congruence| | |];
      destruct Ha0 as (p0 & Hp0 & Hh0 & Hch0),
               Ha' as (p1 & Hp1 & Hh1 & Hch1);
      simplify_eq; simpl; by rewrite Hch0. }
  split_and!; [|done|].
  - destruct (monitoringChannels (w_cluster w) !! d) as [p|] eqn:Hp.
    + destruct (consistent_alloc _ _ _ _ Hc Hp) as (h & Hh & _).
      by apply (Hkept p h).
    + rewrite (agrees_absent _ _ _ Ha0 Hp) in Ha'. exact Ha'.
  - intros p h Hp Hh. destruct (Hsame p h Hp Hh) as (H1 & H2 & H3).
    split_and!; [done | done | by apply Hcl].
Qed.

Lemma settled_daemon_untouched_witness :
  let passes := [(enabledSpec ["mon"; "osd"], "admin")] in
  let w := (run (reconcileAll passes) w0).1.2 in
  let out := run (reconcile (enabledSpec ["mon"], "admin")) w in
  monitoringChannels (w_cluster w) !! "mon" = Some 0
  ∧ w_health w !! 0 = Some {| stopChan := 1; monitoringRunning := true |}
  ∧ out.1.1 = Ret tt
  ∧ closes 2 out.2 = 1
  ∧ launches "mon" out.2 = []
  ∧ w_health out.1.2 !! 0
    = Some {| stopChan := 1; monitoringRunning := true |}
  ∧ w_chans out.1.2 !! 1 = w_chans w !! 1
  ∧ closes 1 out.2 = 0.
Proof.
  intros passes w out.
  assert (E : run (reconcileAll passes) w0
              = (Ret tt, w, (run (reconcileAll passes) w0).2))
    by (vm_compute; reflexivity).
  assert (Hs : settled
                 (withCluster (withSpec (enabledSpec ["mon"]) (w_cluster w)) w)
                 "mon").
  { vm_compute. eexists. split; reflexivity. }
  assert (Hp : monitoringChannels (w_cluster w) !! "mon" = Some 0)
    by (vm_compute; reflexivity).
  assert (Hh : w_health w !! 0
               = Some {| stopChan := 1; monitoringRunning := true |})
    by (vm_compute; reflexivity).
  destruct (settled_daemon_untouched aController "rook-ceph"
              (specOf false false false) passes w _
              (enabledSpec ["mon"], "admin") "mon" E Hs) as (_ & Hl & Hrec).
  destruct (Hrec 0 _ Hp Hh) as (H1 & H2 & H3).
  split; [exact Hp|]. split; [exact Hh|].
  split; [vm_compute; reflexivity|]. split; [vm_compute; reflexivity|].
  split; [exact Hl|]. split; [exact H1|]. split; [exact H2 | exact H3].
Defined.
